(** * Gmail attachment watcher: a shallow embedding of [src/src/gmail_watcher.py]

    The development follows the layout of the Python class
    [GmailAttachmentWatcher]:

    - [PyStr]    Python [str] primitives used by the file-name sanitizer
                 ([str.lower], [os.path.splitext], [str.endswith]);
    - [Re]       a small backtracking matcher for the regular expressions
                 that occur in the source;
    - [Sanitizer] [_sanitize_filename];
    - [Pipeline] [_process_attachment], [_process_pdf], [_process_email],
                 [_process_new_messages], [_poll_once] over an explicit
                 world (file system, metadata log, clock, event trace);
    - [Monitor]  [start], [_monitor_inbox] and [_signal_handler] as a
                 step function over the program points at which the
                 Python code waits for its environment.

    The properties follow, module by module: [PyStrFacts], [ReFacts],
    [SanitizerFacts], [SplitextFacts] and [SanitizerSpec] for the
    sanitizer, [PipelineFacts] and [PipelineSpec] for the pipeline,
    [MonitorSpec] for the monitor.

    A Python [str] is modelled by a [string] whose characters are the
    code points U+0000 .. U+00FF; all operations the source applies
    ([lower], the classes [\w], [\s] and [.]) are closed on that range and
    are given their Python 3 meaning there.  Paths are POSIX paths.
    Readings of [time.time()] are rational numbers of seconds. *)

From Stdlib Require Import Ascii NArith ZArith QArith Lia Bool.
From stdpp Require Import gmap strings list.

(** ** Python [str] primitives *)
Module PyStr.
Local Open Scope char_scope.

Definition code (c : ascii) : N := N_of_ascii c.

Definition between (lo hi : N) (c : ascii) : bool :=
  ((lo <=? code c) && (code c <=? hi))%N.

Definition is_char (a c : ascii) : bool := Ascii.eqb c a.

(** Any character but [c]. *)
Definition is_not (c x : ascii) : bool := negb (Ascii.eqb x c).

Definition is_upper_az (c : ascii) : bool := between 65 90 c.
Definition is_lower_az (c : ascii) : bool := between 97 122 c.
Definition is_digit_09 (c : ascii) : bool := between 48 57 c.
Definition is_ascii (c : ascii) : bool := (code c <? 128)%N.

(** The set [[A-Za-z0-9_.-]] of the specification. *)
Definition safe_char (c : ascii) : bool :=
  is_upper_az c || is_lower_az c || is_digit_09 c
  || is_char "_" c || is_char "." c || is_char "-" c.

(** [str.isalnum] on one code point below U+0100: the ASCII letters and
    digits, the letters of the Latin-1 supplement (U+00AA, U+00B5,
    U+00BA, U+00C0..U+00D6, U+00D8..U+00F6, U+00F8..U+00FF), and its
    numeric characters (U+00B2, U+00B3, U+00B9, U+00BC..U+00BE). *)
Definition isalnum (c : ascii) : bool :=
  is_upper_az c || is_lower_az c || is_digit_09 c
  || between 170 170 c || between 181 181 c || between 186 186 c
  || between 192 214 c || between 216 246 c || between 248 255 c
  || between 178 179 c || between 185 185 c || between 188 190 c.

(** [\w] of a Python 3 [str] pattern: alphanumeric or underscore. *)
Definition re_word (c : ascii) : bool := isalnum c || is_char "_" c.

(** [\s] of a Python 3 [str] pattern: TAB..CR, FS..US, space, NEL, NBSP. *)
Definition re_space (c : ascii) : bool :=
  between 9 13 c || between 28 32 c || between 133 133 c
  || between 160 160 c.

(** [.] without [re.DOTALL]: anything but a line feed. *)
Definition re_dot (c : ascii) : bool := negb (is_char "010" c).

(** [str.lower] on one code point below U+0100: [A-Z] and the upper-case
    letters U+00C0..U+00DE (except the multiplication sign U+00D7) move
    up by 32. *)
Definition chr_lower (c : ascii) : ascii :=
  if is_upper_az c || between 192 214 c || between 216 222 c
  then ascii_of_N (code c + 32) else c.

Fixpoint smap (f : ascii -> ascii) (s : string) : string :=
  match s with
  | EmptyString => EmptyString
  | String c s' => String (f c) (smap f s')
  end.

(** [s.lower()] *)
Definition lower (s : string) : string := smap chr_lower s.

Fixpoint sall (p : ascii -> bool) (s : string) : bool :=
  match s with
  | EmptyString => true
  | String c s' => p c && sall p s'
  end.

(** [len(s)] as a Python integer. *)
Definition len (s : string) : Z := Z.of_nat (String.length s).

(** [s[i:i+1]]: the empty string when [i] is out of range. *)
Definition char_at (s : string) (i : Z) : option ascii :=
  if (i <? 0)%Z then None else String.get (Z.to_nat i) s.

(** [s[:i]] and [s[i:]] for [0 <= i]. *)
Definition slice_to (s : string) (i : Z) : string :=
  String.substring 0 (Z.to_nat i) s.
Definition slice_from (s : string) (i : Z) : string :=
  String.substring (Z.to_nat i) (String.length s - Z.to_nat i) s.

(** [s.rfind(c)] for a one-character needle: the highest index holding
    [c], or [-1]. *)
Fixpoint rfind (c : ascii) (s : string) : Z :=
  match s with
  | EmptyString => (-1)%Z
  | String a s' =>
      let r := rfind c s' in
      if (0 <=? r)%Z then (r + 1)%Z
      else if Ascii.eqb a c then 0%Z else (-1)%Z
  end.

(** The [while filenameIndex < dotIndex] loop of [genericpath._splitext]
    ("skip all leading dots"): [true] when a character other than the
    extension separator is met, which is where the Python loop returns
    the split; [n] counts the iterations left. *)
Fixpoint non_dot_before (p : string) (filenameIndex : Z) (n : nat) : bool :=
  match n with
  | O => false
  | S n' =>
      match char_at p filenameIndex with
      | Some c =>
          if negb (is_char "." c) then true
          else non_dot_before p (filenameIndex + 1) n'
      | None => true
      end
  end.

(** [os.path.splitext] ([posixpath]: [sep = '/'], no [altsep],
    [extsep = '.']). *)
Definition splitext (p : string) : string * string :=
  let sepIndex := rfind "/" p in
  let dotIndex := rfind "." p in
  if (sepIndex <? dotIndex)%Z then
    let filenameIndex := (sepIndex + 1)%Z in
    if non_dot_before p filenameIndex (Z.to_nat (dotIndex - filenameIndex))
    then (slice_to p dotIndex, slice_from p dotIndex)
    else (p, EmptyString)
  else (p, EmptyString).

(** [s.endswith(suffix)] *)
Definition endswith (s suffix : string) : bool :=
  let n := String.length s in
  let m := String.length suffix in
  (m <=? n)%nat && String.eqb (String.substring (n - m) m s) suffix.

End PyStr.

(** ** Regular expressions

    The fragment of [re] used by the source: literals, character classes
    (including [.]), a greedy or lazy [+] over a class, concatenation,
    alternation and numbered groups, with Python's leftmost, backtracking
    semantics. *)
Module Re.

Inductive regex : Type :=
| Lit (c : ascii)
| Cls (p : ascii -> bool)
| Plus (p : ascii -> bool)          (* [p]+   greedy *)
| PlusLazy (p : ascii -> bool)      (* [p]+?  lazy   *)
| Cat (r1 r2 : regex)
| Alt (r1 r2 : regex)
| Group (n : nat) (r : regex).

(** Captured groups, most recently closed first. *)
Definition caps : Type := list (nat * string).

Fixpoint group (m : caps) (n : nat) : option string :=
  match m with
  | [] => None
  | (k, s) :: m' => if Nat.eqb k n then Some s else group m' n
  end.

Section Matcher.
Context {R : Type}.

(** One or more characters of class [p], longest first. *)
Fixpoint plus_greedy (p : ascii -> bool) (s : string)
         (k : string -> option R) : option R :=
  match s with
  | EmptyString => None
  | String c s' =>
      if p c then
        match plus_greedy p s' k with
        | Some r => Some r
        | None => k s'
        end
      else None
  end.

(** One or more characters of class [p], shortest first. *)
Fixpoint plus_lazy (p : ascii -> bool) (s : string)
         (k : string -> option R) : option R :=
  match s with
  | EmptyString => None
  | String c s' =>
      if p c then
        match k s' with
        | Some r => Some r
        | None => plus_lazy p s' k
        end
      else None
  end.
End Matcher.

(** [rmatch r s m k]: match [r] at the head of [s] with the groups [m]
    closed so far, and hand the rest of the subject and the groups to
    the continuation [k]; a failing continuation makes the matcher
    backtrack. *)
Fixpoint rmatch (r : regex) (s : string) (m : caps)
         (k : string -> caps -> option caps) : option caps :=
  match r with
  | Lit a =>
      match s with
      | String c s' => if Ascii.eqb c a then k s' m else None
      | EmptyString => None
      end
  | Cls p =>
      match s with
      | String c s' => if p c then k s' m else None
      | EmptyString => None
      end
  | Plus p => plus_greedy p s (fun s' => k s' m)
  | PlusLazy p => plus_lazy p s (fun s' => k s' m)
  | Cat r1 r2 => rmatch r1 s m (fun s' m' => rmatch r2 s' m' k)
  | Alt r1 r2 =>
      match rmatch r1 s m k with
      | Some res => Some res
      | None => rmatch r2 s m k
      end
  | Group n r1 =>
      rmatch r1 s m
        (fun s' m' =>
           k s' ((n, String.substring 0 (String.length s - String.length s') s)
                   :: m'))
  end.

(** [re.search(r, s)]: the first start position at which [r] matches. *)
Fixpoint search (r : regex) (s : string) : option caps :=
  match rmatch r s [] (fun _ m => Some m) with
  | Some m => Some m
  | None =>
      match s with
      | EmptyString => None
      | String _ s' => search r s'
      end
  end.

(** [re.sub] for a pattern that is a single character class: every
    character of the class is replaced by [repl], the others are kept. *)
Fixpoint sub_class (p : ascii -> bool) (repl : string) (s : string) : string :=
  match s with
  | EmptyString => EmptyString
  | String c s' =>
      (if p c then repl else String c EmptyString) +:+ sub_class p repl s'
  end.



Definition caps_all (p : ascii -> bool) (m : caps) : Prop :=
  Forall (fun e => PyStr.sall p (snd e) = true) m.

End Re.

(** ** [_sanitize_filename] *)
Module Sanitizer.
Import PyStr Re.
Local Open Scope char_scope.

(** [[^\s<>]] *)
Definition not_space_angle (c : ascii) : bool :=
  negb (re_space c || is_char "<" c || is_char ">" c).

(** [r'<(.+?)>|([^\s<>]+@[^\s<>]+)'] *)
Definition email_re : regex :=
  Alt (Cat (Lit "<") (Cat (Group 1 (PlusLazy re_dot)) (Lit ">")))
      (Group 2 (Cat (Plus not_space_angle)
                    (Cat (Lit "@") (Plus not_space_angle)))).

(** [[<>@.]] *)
Definition angle_at_dot (c : ascii) : bool :=
  is_char "<" c || is_char ">" c || is_char "@" c || is_char "." c.

(** [[^\w\-_]] *)
Definition not_word_dash (c : ascii) : bool :=
  negb (re_word c || is_char "-" c || is_char "_" c).

(** [[^\w\-_.]] *)
Definition not_word_dash_dot (c : ascii) : bool :=
  negb (re_word c || is_char "-" c || is_char "_" c || is_char "." c).

(** [email_match.group(1) or email_match.group(2)]: a group that did
    not take part is [None], and [None] and [''] are both falsy. *)
Definition group_or (m : caps) : option string :=
  match group m 1 with
  | Some (String c s) => Some (String c s)
  | _ => group m 2
  end.

(** The address part of the sender.  The pattern closes group 1 or
    group 2 on every match (lemma [email_re_groups]), so the last
    branch, where Python would fail on [None.lower()], is never taken. *)
Definition email_addr_of (sender : string) : string :=
  match search email_re sender with
  | Some m =>
      match group_or m with
      | Some a => a
      | None => EmptyString
      end
  | None => sender
  end.

Definition clean_sender_of (sender : string) : string :=
  let clean_sender := sub_class angle_at_dot "_" (lower (email_addr_of sender)) in
  sub_class not_word_dash EmptyString clean_sender.

Definition sanitize_filename (filename sender timestamp : string) : string :=
  let clean_sender := clean_sender_of sender in
  let '(name, ext) := splitext filename in
  let clean_name := sub_class not_word_dash_dot "_" name in
  let clean_ext := lower ext in
  clean_sender +:+ "_" +:+ timestamp +:+ "_" +:+ clean_name +:+ clean_ext.

End Sanitizer.

(** ** The processing pipeline *)
Module Pipeline.
Import PyStr Sanitizer.

Definition bytes : Type := list Byte.byte.

(** [attachment_info], the dictionary written to [attachments.json]. *)
Record AttachmentRecord : Type := {
  info_timestamp : string;
  info_sender : string;
  info_subject : string;
  original_filename : string;
  saved_filename : string;
  file_size : Z;
  file_path : string
}.

(** The fields of [Config] and of the watcher object that the pipeline
    reads. *)
Record Config : Type := {
  docker_mode : bool;
  ENABLE_SUMMARIZATION : bool;
  attachments_dir : string;
  LOG_DIR : string
}.

(** One reading of [datetime.now()], by its two renderings:
    [strftime('%Y%m%d_%H%M%S')] (digits and one underscore) and
    [isoformat()]. *)
Record Instant : Type := { stamp : string; iso : string }.

(** How a file operation ends: the data reached the file; [open] raised
    and nothing changed; or the file was opened and the write raised
    after [written] bytes. *)
Inductive IoOutcome : Type :=
| IoOk
| IoOpenFailed
| IoWriteFailed (written : nat).

(** One element of the list returned by [email.header.decode_header]. *)
Inductive HeaderPart : Type :=
| PBytes (raw : bytes) (encoding : option string)
| PStr (text : string).

(** One part met by [message.walk()]. *)
Record Part : Type := {
  content_disposition : option string;   (* part.get_content_disposition() *)
  part_filename : option string;         (* part.get_filename() *)
  payload : option bytes                 (* part.get_payload(decode=True) *)
}.

(** A message as [email.message_from_bytes] returns it. *)
Record Message : Type := {
  msg_from : string;                     (* message.get('From', '') *)
  msg_subject : string;                  (* message.get('Subject', '') *)
  msg_date : string;
  walk : list Part
}.

(** The answers of the IMAP server during one sweep; [false] and [None]
    stand for a call that raises. *)
Record Server : Type := {
  srv_select : bool;
  srv_search : option (list string);
  srv_fetch : string -> option Message;
  srv_store : string -> bool
}.

(** The collaborators outside the repository and the nondeterminism of
    the platform. *)
Record Env : Type := {
  (** outcome of the n-th file operation of the run *)
  fs_result : nat -> IoOutcome;
  (** the n-th reading of the clock *)
  now : nat -> Instant;
  (** [email.header.decode_header]; [None] when it raises *)
  decode_header : string -> option (list HeaderPart);
  (** [bytes.decode(encoding, errors='ignore')]; [None] when it raises *)
  bytes_decode : bytes -> string -> option string;
  (** the text [_process_pdf] writes for a stored file with the given
      contents, or [None] when no text is extracted or the analysis
      raises *)
  pdf_summary : string -> option bytes -> AttachmentRecord -> option bytes
}.

(** What the watcher does to the outside, in order. *)
Inductive Event : Type :=
| EvConnect (ok : bool)                           (* _connect_gmail() *)
| EvSelect                                        (* mail.select('INBOX') *)
| EvSearch                                        (* mail.search(None, 'UNSEEN') *)
| EvFetch (email_id : string)                     (* mail.fetch(id, '(RFC822)') *)
| EvStore (email_id : string)                     (* mail.store(id, '+FLAGS', '\\Seen') *)
| EvWrite (path : string) (data : bytes) (o : IoOutcome)   (* open(path, 'wb') *)
| EvAppend (r : AttachmentRecord) (o : IoOutcome)          (* open(json_log_path, 'a') *)
| EvSummary (path : string) (o : IoOutcome)       (* open(summary_path, 'w') *)
| EvNoAttachments                                 (* "No attachments found" *)
| EvSend (line : string)                          (* mail.send(...) *)
| EvLogout                                        (* mail.logout() *)
| EvSleep (seconds : Z)                           (* time.sleep(...) *)
| EvExit (status : Z)                             (* sys.exit(...) *)
| EvReturn.                                       (* start() returns *)

(** The state outside the watcher.  [files] holds every file but the
    two logs the watcher keeps in [LOG_DIR]: the logging file
    [gmail_watcher.log], which is left out, and the metadata log
    [attachments.json], which is told apart as [json_log], the records
    written to it in full, oldest first.  The bytes a torn append
    leaves in that file are not kept: they are read off the trace,
    where the event of the append says how many were written. *)
Record World : Type := {
  files : gmap string bytes;             (* path |-> contents *)
  json_log : list AttachmentRecord;      (* attachments.json, a record per line *)
  trace : list Event;                    (* oldest first *)
  fs_ops : nat;                          (* file operations attempted so far *)
  ticks : nat                            (* clock readings taken so far *)
}.

Definition empty_world : World :=
  {| files := ∅; json_log := []; trace := []; fs_ops := 0; ticks := 0 |}.

Definition emit (e : Event) (w : World) : World :=
  {| files := files w; json_log := json_log w; trace := trace w ++ [e];
     fs_ops := fs_ops w; ticks := ticks w |}.

Definition set_files (f : gmap string bytes) (w : World) : World :=
  {| files := f; json_log := json_log w; trace := trace w;
     fs_ops := fs_ops w; ticks := ticks w |}.

Definition set_json_log (l : list AttachmentRecord) (w : World) : World :=
  {| files := files w; json_log := l; trace := trace w;
     fs_ops := fs_ops w; ticks := ticks w |}.

Definition count_fs_op (w : World) : World :=
  {| files := files w; json_log := json_log w; trace := trace w;
     fs_ops := S (fs_ops w); ticks := ticks w |}.

(** [s.split('/')] *)
Fixpoint path_pieces (s : string) : list string :=
  match s with
  | EmptyString => [EmptyString]
  | String c s' =>
      if Ascii.eqb c "/" then EmptyString :: path_pieces s'
      else match path_pieces s' with
           | piece :: pieces => String c piece :: pieces
           | [] => [String c EmptyString]
           end
  end.

(** The root [PurePosixPath] finds in a string: two leading
    separators stand apart, three or more count as one. *)
Definition path_root (s : string) : string :=
  match s with
  | String "/" (String "/" (String "/" _)) => "/"
  | String "/" (String "/" _) => "//"
  | String "/" _ => "/"
  | _ => EmptyString
  end.

(** The components [PurePosixPath] keeps: neither empty nor [.]. *)
Definition path_parts (s : string) : list string :=
  List.filter (fun x => negb (String.eqb x EmptyString)
                        && negb (String.eqb x "."))
              (path_pieces s).

(** The components of a directory, each followed by the separator. *)
Fixpoint path_prefix (parts : list string) : string :=
  match parts with
  | [] => EmptyString
  | part :: parts' => part +:+ "/" +:+ path_prefix parts'
  end.

(** [pathlib]: [str(Path(parent) / name)] for a [name] that is one
    component (no separator, not empty, not [.]).  The directory is
    normalized as [pathlib] does it: repeated and trailing separators
    and [.] components go. *)
Definition path_join (parent name : string) : string :=
  path_root parent +:+ path_prefix (path_parts parent) +:+ name.

(** [PurePath.stem] of a final component. *)
Definition path_stem (name : string) : string :=
  let i := rfind "." name in
  if ((0 <? i) && (i <? len name - 1))%Z then slice_to name i else name.

Section WithEnv.
Variable cfg : Config.
Variable env : Env.

(** [datetime.now()] *)
Definition read_clock (w : World) : Instant * World :=
  (now env (ticks w),
   {| files := files w; json_log := json_log w; trace := trace w;
      fs_ops := fs_ops w; ticks := S (ticks w) |}).

(** The effect of [open(path, 'wb')] followed by [write(data)] on the
    directory. *)
Definition store_bytes (path : string) (data : bytes) (o : IoOutcome)
           (w : World) : World :=
  match o with
  | IoOk => set_files (<[path := data]> (files w)) w
  | IoOpenFailed => w
  | IoWriteFailed n => set_files (<[path := take n data]> (files w)) w
  end.

(** [with open(file_path, 'wb') as f: f.write(attachment_data)] *)
Definition write_file (path : string) (data : bytes) (w : World)
  : IoOutcome * World :=
  let o := fs_result env (fs_ops w) in
  (o, emit (EvWrite path data o) (store_bytes path data o (count_fs_op w))).

(** [with open(json_log_path, 'a') as f: f.write(json.dumps(info) + '\n')];
    a line that was not written whole is no record.  What was
    written of it stays in the file, and the next line is glued to
    it: [json_log] tells the file as long as no append is torn. *)
Definition append_record (r : AttachmentRecord) (w : World)
  : IoOutcome * World :=
  let o := fs_result env (fs_ops w) in
  let w1 := count_fs_op w in
  let w2 := match o with
            | IoOk => set_json_log (json_log w1 ++ [r]) w1
            | _ => w1
            end in
  (o, emit (EvAppend r o) w2).

(** [_decode_header_value] *)
Definition decode_header_value (header_value : string) : string :=
  match decode_header env header_value with
  | None => header_value                       (* except: str(header_value) *)
  | Some decoded_parts =>
      let step (acc : option string) (p : HeaderPart) : option string :=
        match acc with
        | None => None
        | Some decoded_string =>
            match p with
            | PBytes part encoding =>
                match bytes_decode env part (default "utf-8" encoding) with
                | Some t => Some (decoded_string +:+ t)
                | None => None
                end
            | PStr part => Some (decoded_string +:+ part)
            end
        end in
      match fold_left step decoded_parts (Some EmptyString) with
      | Some decoded_string => decoded_string
      | None => header_value                   (* except: str(header_value) *)
      end
  end.

(** [_process_pdf]: every failure inside is caught and logged. *)
Definition process_pdf (parent name : string) (attachment_info : AttachmentRecord)
           (w : World) : World :=
  let pdf_path := path_join parent name in
  match pdf_summary env pdf_path (files w !! pdf_path) attachment_info with
  | None => w
  | Some doc =>
      let summary_path := path_join parent (path_stem name +:+ "_summary.txt") in
      let o := fs_result env (fs_ops w) in
      emit (EvSummary summary_path o)
           (store_bytes summary_path doc o (count_fs_op w))
  end.

(** [_process_attachment]: the stored path, or [None] when saving
    failed. *)
Definition process_attachment (attachment_data : bytes)
           (filename sender subject timestamp : string) (w : World)
  : option string * World :=
  let unique_filename := sanitize_filename filename sender timestamp in
  let file_path := path_join (attachments_dir cfg) unique_filename in
  match write_file file_path attachment_data w with
  | (IoOk, w1) =>
      let '(t, w2) := read_clock w1 in
      let attachment_info :=
        {| info_timestamp := iso t;
           info_sender := sender;
           info_subject := subject;
           original_filename := filename;
           saved_filename := unique_filename;
           file_size := Z.of_nat (length attachment_data);
           file_path := file_path |} in
      let '(logged, w3) :=
        if docker_mode cfg then (IoOk, w2)
        else append_record attachment_info w2 in
      match logged with
      | IoOk =>
          let w4 :=
            if endswith (lower filename) ".pdf" && ENABLE_SUMMARIZATION cfg
            then process_pdf (attachments_dir cfg) unique_filename
                             attachment_info w3
            else w3 in
          (Some file_path, w4)
      | _ => (None, w3)                        (* except: return None *)
      end
  | (_, w1) => (None, w1)                      (* except: return None *)
  end.

Definition is_attachment (p : Part) : bool :=
  match content_disposition p with
  | Some d => String.eqb d "attachment"
  | None => false
  end.

(** The body of [for part in message.walk()]; the Boolean is
    [has_attachments]. *)
Definition process_part (sender subject timestamp : string)
           (st : bool * World) (part : Part) : bool * World :=
  let '(has_attachments, w) := st in
  if is_attachment part then
    match part_filename part with
    | Some (String c f) =>
        let filename := decode_header_value (String c f) in
        match payload part with
        | Some (b :: bs) =>
            (true, snd (process_attachment (b :: bs) filename sender
                                           subject timestamp w))
        | _ => (true, w)
        end
    | _ => (true, w)
    end
  else (has_attachments, w).

Section WithServer.
Variable srv : Server.

(** [_process_email] *)
Definition process_email (email_id : string) (w : World) : World :=
  let w := emit (EvFetch email_id) w in
  match srv_fetch srv email_id with
  | None => w                                (* except: log the error *)
  | Some message =>
      let sender := decode_header_value (msg_from message) in
      let subject := decode_header_value (msg_subject message) in
      let '(t, w) := read_clock w in
      let timestamp := stamp t in
      let '(has_attachments, w) :=
        fold_left (process_part sender subject timestamp)
                  (walk message) (false, w) in
      if has_attachments then w else emit EvNoAttachments w
  end.

(** [for email_id in unseen_ids: self._process_email(email_id);
    self.mail.store(email_id, '+FLAGS', '\\Seen')]; a [store] that
    raises leaves the loop. *)
Fixpoint sweep (unseen_ids : list string) (w : World) : World :=
  match unseen_ids with
  | [] => w
  | email_id :: rest =>
      let w := process_email email_id w in
      let w := emit (EvStore email_id) w in
      if srv_store srv email_id then sweep rest w else w
  end.

(** [_process_new_messages]; [mail] tells whether [self.mail] is set. *)
Definition process_new_messages (mail : bool) (w : World) : World :=
  if negb mail then w
  else
    let w := emit EvSelect w in
    if negb (srv_select srv) then w
    else
      let w := emit EvSearch w in
      match srv_search srv with
      | None => w
      | Some unseen_ids => sweep unseen_ids w
      end.

(** [_poll_once] *)
Definition poll_once (w : World) : World :=
  let w := emit EvSelect w in
  if negb (srv_select srv) then w
  else
    let w := emit EvSearch w in
    match srv_search srv with
    | None => w
    | Some unseen_ids => sweep unseen_ids w
    end.

(** The sweep of [start]: search without a new [select]. *)
Definition start_sweep (w : World) : World :=
  let w := emit EvSearch w in
  match srv_search srv with
  | None => w
  | Some unseen_ids => sweep unseen_ids w
  end.
End WithServer.

(** The parts the specification calls attachments: disposition
    ["attachment"], a file name that is present and not empty, a
    payload that is present and not empty. *)
Definition qualifies (p : Part) : bool :=
  is_attachment p
  && match part_filename p with Some (String _ _) => true | _ => false end
  && match payload p with Some (_ :: _) => true | _ => false end.

(** The write a qualifying part calls for, given the sender and the
    timestamp of its message: the path and the bytes. *)
Definition expected_writes (sender timestamp : string) (p : Part)
  : list (string * bytes) :=
  if qualifies p then
    match part_filename p, payload p with
    | Some f, Some data =>
        [(path_join (attachments_dir cfg)
                    (sanitize_filename (decode_header_value f) sender
                                       timestamp),
          data)]
    | _, _ => []
    end
  else [].

(** The writes [_process_email] attempts for a message: those of its
    qualifying parts, under the sender of the message and the one
    timestamp read on entry. *)
Definition message_writes (srv : Server) (email_id : string) (w : World)
  : list (string * bytes) :=
  match srv_fetch srv email_id with
  | Some message =>
      flat_map (expected_writes (decode_header_value (msg_from message))
                                (stamp (now env (ticks w))))
               (walk message)
  | None => []
  end.
End WithEnv.

(** [w'] continues [w] by the events [evs]. *)
Definition extends (w w' : World) (evs : list Event) : Prop :=
  trace w' = trace w ++ evs.

(** The writes of attachments attempted, and the messages marked seen,
    in a run of events. *)
Definition attempted_writes (evs : list Event) : list (string * bytes) :=
  flat_map (fun e => match e with EvWrite p d _ => [(p, d)] | _ => [] end) evs.

Definition stores (evs : list Event) : list string :=
  flat_map (fun e => match e with EvStore i => [i] | _ => [] end) evs.

End Pipeline.

(** ** Concrete configurations, environments and messages *)
Module Samples.
Import Pipeline.

Definition local_cfg : Config :=
  {| docker_mode := false; ENABLE_SUMMARIZATION := false;
     attachments_dir := "data/attachments"; LOG_DIR := "data/logs" |}.

Definition docker_cfg : Config :=
  {| docker_mode := true; ENABLE_SUMMARIZATION := false;
     attachments_dir := "/app/attachments"; LOG_DIR := "/tmp" |}.

(** Noon and one second past noon on 1 January 2024. *)
Definition noon (n : nat) : Instant :=
  match n with
  | O => {| stamp := "20240101_120000"; iso := "2024-01-01T12:00:00" |}
  | S _ => {| stamp := "20240101_120001"; iso := "2024-01-01T12:00:01" |}
  end.

(** Headers without encoded words decode to themselves. *)
Definition plain_header (h : string) : option (list HeaderPart) :=
  Some [PStr h].

(** Every file operation succeeds. *)
Definition calm_env : Env :=
  {| fs_result := fun _ => IoOk; now := noon; decode_header := plain_header;
     bytes_decode := fun _ _ => None; pdf_summary := fun _ _ _ => None |}.

(** The disk fills up: every write stops after one byte. *)
Definition full_disk_env : Env :=
  {| fs_result := fun _ => IoWriteFailed 1; now := noon;
     decode_header := plain_header;
     bytes_decode := fun _ _ => None; pdf_summary := fun _ _ _ => None |}.

Definition report_bytes : bytes := [Byte.x25; Byte.x50; Byte.x44; Byte.x46].
Definition draft_bytes : bytes := [Byte.x64; Byte.x72].

Definition report_part : Part :=
  {| content_disposition := Some "attachment";
     part_filename := Some "Report (Final).PDF";
     payload := Some report_bytes |}.

Definition draft_part : Part :=
  {| content_disposition := Some "attachment";
     part_filename := Some "Report (Final).PDF";
     payload := Some draft_bytes |}.

Definition nameless_part : Part :=
  {| content_disposition := Some "attachment";
     part_filename := None;
     payload := Some report_bytes |}.

Definition message_with (ps : list Part) : Message :=
  {| msg_from := "Jane Doe <jane@ex.com>"; msg_subject := "Quarterly report";
     msg_date := "Mon, 01 Jan 2024 12:00:00 +0000"; walk := ps |}.

(** A mailbox with one unseen message, number 1. *)
Definition mailbox (m : Message) : Server :=
  {| srv_select := true; srv_search := Some ["1"];
     srv_fetch := fun _ => Some m; srv_store := fun _ => true |}.

Definition report_path : string :=
  "data/attachments/jane_ex_com_20240101_120000_Report__Final_.pdf".

End Samples.

(** ** The monitor: [start], [_monitor_inbox], [_signal_handler] *)
Module Monitor.
Import PyStr Pipeline.

(** [needle in hay] *)
Fixpoint contains (needle hay : string) : bool :=
  match hay with
  | EmptyString => String.prefix needle EmptyString
  | String _ hay' => String.prefix needle hay || contains needle hay'
  end.

Definition crlf : string := String "013"%char (String "010"%char EmptyString).

(** [f'{tag} IDLE\r\n'] and [b'DONE\r\n'] *)
Definition idle_command (tag : string) : string := tag +:+ " IDLE" +:+ crlf.
Definition done_command : string := "DONE" +:+ crlf.

(** The program points at which the code waits for its environment;
    the numbers are lines of [gmail_watcher.py]. *)
Inductive Loc : Type :=
| AtStartConnect                         (* 762  self._connect_gmail() *)
| AtStartSweep                           (* 768  self.mail.search(None, 'UNSEEN') ... *)
| AtConnect                              (* 586  self._connect_gmail() *)
| AtSleep30                              (* 587  time.sleep(30) *)
| AtSelect                               (* 591  self.mail.select('INBOX') *)
| AtNewTag                               (* 597  self.mail._new_tag() *)
| AtSendIdle (tag : string)              (* 600  self.mail.send(f'{tag} IDLE\r\n') *)
| AtAck (tag : string)                   (* 604  self.mail.readline() *)
| AtIdleStart (tag : string)             (* 616  idle_start_time = time.time() *)
| AtWait (tag : string) (idle_start_time : Q)       (* 620  self.mail.readline() *)
| AtDoneNew (tag : string)               (* 631  self.mail.send(b'DONE\r\n') *)
| AtAckNew (tag : string)                (* 635  self.mail.readline() *)
| AtProcess                              (* 640  self._process_new_messages() *)
| AtClock (tag : string) (idle_start_time : Q)      (* 646  time.time() *)
| AtDoneRefresh (tag : string)           (* 648  self.mail.send(b'DONE\r\n') *)
| AtAckRefresh (tag : string)            (* 652  self.mail.readline() *)
| AtDoneErr                              (* 661  self.mail.send(b'DONE\r\n') *)
| AtFallbackLogout                       (* 673  self.mail.logout() *)
| AtFallbackConnect                      (* 679  self._connect_gmail() *)
| AtPollOnce                             (* 680  self._poll_once() *)
| AtSleep10.                             (* 682  time.sleep(10) *)

(** What the environment hands back at a program point.  A line
    is given as the text the code tests; a line of ASCII bytes is the
    same string as bytes and as their decoding.  A sweep is entered
    as a whole, with the answers of the server for its length: what
    arrives inside a sweep is not told apart. *)
Inductive Input : Type :=
| InSignal (signum : Z)                  (* SIGINT or SIGTERM is delivered *)
| InConnect (ok : bool)                  (* result of _connect_gmail() *)
| InDone (ok : bool)                     (* a command returns, or raises *)
| InTag (tag : string)                   (* result of _new_tag() *)
| InLine (line : option string)          (* readline(): a line, or it raises *)
| InTime (t : Q)                         (* time.time() *)
| InWake                                 (* time.sleep() returns *)
| InServer (srv : Server).               (* the mailbox during a sweep *)

Record State : Type := {
  loc : Loc;
  running : bool;                        (* self.running *)
  mail : bool;                           (* self.mail is not None *)
  world : World
}.

Inductive Outcome : Type :=
| Next (st : State)
| Halt (w : World)                       (* the process has ended *)
| Stuck.                                 (* the input does not fit the point *)

Definition goto (l : Loc) (st : State) : Outcome :=
  Next {| loc := l; running := running st; mail := mail st; world := world st |}.

Definition with_world (f : World -> World) (st : State) : State :=
  {| loc := loc st; running := running st; mail := mail st;
     world := f (world st) |}.

Definition with_mail (m : bool) (st : State) : State :=
  {| loc := loc st; running := running st; mail := m; world := world st |}.

(** [while self.running:] of line 582, followed by [if not self.mail].
    When the loop ends, [_monitor_inbox], [start] and [main] return. *)
Definition loop_top (st : State) : Outcome :=
  if running st then
    if mail st then goto AtSelect st else goto AtConnect st
  else Halt (emit EvReturn (world st)).

(** [while self.running:] of line 617. *)
Definition wait_loop (tag : string) (idle_start_time : Q) (st : State) : Outcome :=
  if running st then goto (AtWait tag idle_start_time) st else loop_top st.

(** [_signal_handler] up to, and without, its [sys.exit(0)]. *)
Definition signal_handler (st : State) : State :=
  {| loc := loc st; running := false; mail := mail st;
     world := if mail st then emit EvLogout (world st) else world st |}.

(** [time.time() - idle_start_time > 1740], on the readings taken
    as exact numbers. *)
Definition refresh_due (t idle_start_time : Q) : bool :=
  negb (Qle_bool (t - idle_start_time) 1740).

Section WithEnv.
Variable cfg : Config.
Variable env : Env.

Definition step (st : State) (i : Input) : Outcome :=
  match i with
  | InSignal _ =>
      let st' := signal_handler st in
      match loc st with
      | AtDoneErr =>
          (* 660-664: the bare [except:] catches SystemExit; [break] *)
          loop_top st'
      | AtFallbackLogout =>
          (* 671-676: the bare [except:] catches SystemExit *)
          goto AtFallbackConnect (with_mail false st')
      | _ => Halt (emit (EvExit 0) (world st'))
      end
  | _ =>
  match loc st, i with
  | AtStartConnect, InConnect ok =>
      let st := with_mail ok (with_world (emit (EvConnect ok)) st) in
      if ok then goto AtStartSweep st
      else Halt (emit EvReturn (world st))   (* "Failed to connect to Gmail. Exiting." *)
  | AtStartSweep, InServer srv =>
      loop_top (with_world (start_sweep cfg env srv) st)
  | AtConnect, InConnect ok =>
      let st := with_mail ok (with_world (emit (EvConnect ok)) st) in
      if ok then goto AtSelect st else goto AtSleep30 st
  | AtSleep30, InWake =>
      loop_top (with_world (emit (EvSleep 30)) st)            (* continue *)
  | AtSelect, InDone ok =>
      let st := with_world (emit EvSelect) st in
      if ok then goto AtNewTag st else goto AtFallbackLogout st
  | AtNewTag, InTag tag => goto (AtSendIdle tag) st
  | AtSendIdle tag, InDone ok =>
      let st := with_world (emit (EvSend (idle_command tag))) st in
      if ok then goto (AtAck tag) st else goto AtFallbackLogout st
  | AtAck tag, InLine None => goto AtFallbackLogout st
  | AtAck tag, InLine (Some line) =>
      if String.prefix "+ idling" line then goto (AtIdleStart tag) st
      else if contains tag line && contains "OK" line
           then goto (AtIdleStart tag) st
      else if contains "NO" line || contains "BAD" line
           then goto AtFallbackLogout st       (* raise Exception(...) *)
      else goto (AtAck tag) st
  | AtIdleStart tag, InTime t0 => wait_loop tag t0 st
  | AtWait tag t0, InLine None => goto AtDoneErr st
  | AtWait tag t0, InLine (Some line) =>
      match line with
      | EmptyString => goto (AtClock tag t0) st              (* if line: *)
      | _ =>
          if contains "EXISTS" line then goto (AtDoneNew tag) st
          else goto (AtClock tag t0) st
      end
  | AtDoneNew tag, InDone ok =>
      let st := with_world (emit (EvSend done_command)) st in
      if ok then goto (AtAckNew tag) st else goto AtDoneErr st
  | AtAckNew tag, InLine None => goto AtDoneErr st
  | AtAckNew tag, InLine (Some resp) =>
      if contains tag resp then goto AtProcess st
      else goto (AtAckNew tag) st
  | AtProcess, InServer srv =>
      loop_top (with_world (process_new_messages cfg env srv (mail st)) st)   (* break *)
  | AtClock tag t0, InTime t =>
      if refresh_due t t0 then goto (AtDoneRefresh tag) st
      else wait_loop tag t0 st
  | AtDoneRefresh tag, InDone ok =>
      let st := with_world (emit (EvSend done_command)) st in
      if ok then goto (AtAckRefresh tag) st else goto AtDoneErr st
  | AtAckRefresh tag, InLine None => goto AtDoneErr st
  | AtAckRefresh tag, InLine (Some resp) =>
      if contains tag resp then loop_top st                   (* break *)
      else goto (AtAckRefresh tag) st
  | AtDoneErr, InDone _ =>
      loop_top (with_world (emit (EvSend done_command)) st)   (* break *)
  | AtFallbackLogout, InDone _ =>
      let st := if mail st then with_world (emit EvLogout) st else st in
      goto AtFallbackConnect (with_mail false st)
  | AtFallbackConnect, InConnect ok =>
      let st := with_mail ok (with_world (emit (EvConnect ok)) st) in
      if ok then goto AtPollOnce st else goto AtSleep10 st
  | AtPollOnce, InServer srv =>
      goto AtSleep10 (with_world (poll_once cfg env srv) st)
  | AtSleep10, InWake =>
      loop_top (with_world (emit (EvSleep 10)) st)
  | _, _ => Stuck
  end
  end.

(** Feed the inputs one by one. *)
Fixpoint run (st : State) (inputs : list Input) : Outcome :=
  match inputs with
  | [] => Next st
  | i :: rest =>
      match step st i with
      | Next st' => run st' rest
      | o => o
      end
  end.

(** The program points reached after each input. *)
Fixpoint visited (st : State) (inputs : list Input) : list Loc :=
  match inputs with
  | [] => []
  | i :: rest =>
      match step st i with
      | Next st' => loc st' :: visited st' rest
      | _ => []
      end
  end.
End WithEnv.

(** The watcher at the entry of [start]. *)
Definition initial (w : World) : State :=
  {| loc := AtStartConnect; running := true; mail := false; world := w |}.

Definition is_signal (i : Input) : bool :=
  match i with InSignal _ => true | _ => false end.

(** The inputs that can come at a program point: a signal anywhere,
    otherwise the result of the call the point is waiting for. *)
Definition expects (l : Loc) (i : Input) : bool :=
  match l, i with
  | _, InSignal _ => true
  | (AtStartConnect | AtConnect | AtFallbackConnect), InConnect _ => true
  | (AtStartSweep | AtProcess | AtPollOnce), InServer _ => true
  | (AtSleep30 | AtSleep10), InWake => true
  | (AtSelect | AtSendIdle _ | AtDoneNew _ | AtDoneRefresh _ | AtDoneErr
     | AtFallbackLogout), InDone _ => true
  | AtNewTag, InTag _ => true
  | (AtAck _ | AtWait _ _ | AtAckNew _ | AtAckRefresh _), InLine _ => true
  | (AtIdleStart _ | AtClock _ _), InTime _ => true
  | _, _ => false
  end.

(** The states of the specification's monitor, and the state each
    program point belongs to. *)
Inductive Reason : Type := NewData | Refresh | Shutdown | Failed.

Inductive MonitorState : Type :=
| DISCONNECTED | CONNECTING | CATCHUP | IDLE_HANDSHAKE | IDLE_WAITING
| IDLE_TERMINATING (reason : Reason) | POLLING | SHUTTING_DOWN.

Definition monitor_state (l : Loc) : MonitorState :=
  match l with
  | AtStartConnect | AtConnect | AtFallbackConnect => CONNECTING
  | AtStartSweep | AtProcess => CATCHUP
  | AtSleep30 | AtFallbackLogout => DISCONNECTED
  | AtSelect | AtNewTag | AtSendIdle _ | AtAck _ | AtIdleStart _ => IDLE_HANDSHAKE
  | AtWait _ _ | AtClock _ _ => IDLE_WAITING
  | AtDoneNew _ | AtAckNew _ => IDLE_TERMINATING NewData
  | AtDoneRefresh _ | AtAckRefresh _ => IDLE_TERMINATING Refresh
  | AtDoneErr => IDLE_TERMINATING Failed
  | AtPollOnce | AtSleep10 => POLLING
  end.

(** The monitor blocked in [readline] at line 620 of an idle session
    that began at time 0 under tag [A001]. *)
Definition waiting : State :=
  {| loc := AtWait "A001" 0; running := true; mail := true;
     world := empty_world |}.

(** The monitor about to select the inbox, connected. *)
Definition connected : State :=
  {| loc := AtSelect; running := true; mail := true; world := empty_world |}.

(** A bad day: [select] raises, the reconnection fails twice, then the
    server refuses IDLE, and a poll finds the mailbox unreadable. *)
Definition bad_day : list Input :=
  [InDone false; InDone false; InConnect false; InWake;
   InConnect false; InWake; InConnect true; InDone true; InTag "A002";
   InDone true; InLine (Some "A002 BAD IDLE not allowed"); InDone true;
   InConnect true;
   InServer {| srv_select := true; srv_search := None;
               srv_fetch := fun _ => None; srv_store := fun _ => false |};
   InWake; InDone true; InTag "A003"; InDone true; InLine None].

End Monitor.

(** ** Shapes of sender strings

    Predicates used to state what [_sanitize_filename] extracts from
    the usual forms of a [From] header. *)
Module SenderForms.
Import PyStr Sanitizer.
Local Open Scope char_scope.

(** Neither [@] nor [<]. *)
Definition plain_char (c : ascii) : bool :=
  negb (is_char "@" c) && negb (is_char "<" c).

(** A character [.] matches that is not [>]. *)
Definition inner_char (c : ascii) : bool := re_dot c && is_not ">" c.

(** The string is empty or starts with a character outside [[^\s<>]]. *)
Definition starts_broken (s : string) : bool :=
  match s with
  | EmptyString => true
  | String d _ => negb (not_space_angle d)
  end.

(** The string is empty or ends with a character outside [[^\s<>]]. *)
Fixpoint ends_broken (s : string) : bool :=
  match s with
  | EmptyString => true
  | String d EmptyString => negb (not_space_angle d)
  | String _ s' => ends_broken s'
  end.

End SenderForms.

(** ** What a run of events says about the mailbox and the disk

    Readings of the event trace and of the mailbox used to state the
    properties of the sweeps. *)
Module SweepForms.
Import PyStr Pipeline.

(** The messages fetched, and the records that reached the metadata
    log, in a run of events. *)
Definition fetches (evs : list Event) : list string :=
  flat_map (fun e => match e with EvFetch i => [i] | _ => [] end) evs.

Definition appended (evs : list Event) : list AttachmentRecord :=
  flat_map (fun e => match e with EvAppend r IoOk => [r] | _ => [] end) evs.

(** The files whose contents a run of events may have changed: those
    opened for writing with success. *)
Definition touched (evs : list Event) : list string :=
  flat_map (fun e => match e with
                     | EvWrite p _ IoOk | EvWrite p _ (IoWriteFailed _)
                     | EvSummary p IoOk | EvSummary p (IoWriteFailed _) => [p]
                     | _ => []
                     end) evs.

(** [p] names a file directly inside the directory [dir]. *)
Definition inside (dir p : string) : Prop :=
  exists name, p = path_join dir name /\ sall (is_not "/"%char) name = true.

(** The same, with the name free of separators when [ok] holds. *)
Definition inside_when (ok : Prop) (dir p : string) : Prop :=
  exists name, p = path_join dir name
               /\ (ok -> sall (is_not "/"%char) name = true).

(** The record [r] describes a write attempted in the run [evs]. *)
Definition described (evs : list Event) (r : AttachmentRecord) : Prop :=
  exists data, In (file_path r, data) (attempted_writes evs)
               /\ file_size r = Z.of_nat (length data).

(** The messages a sweep over [unseen_ids] reaches: all of them up to
    and including the first one whose [store] raises. *)
Fixpoint reached (srv : Server) (unseen_ids : list string) : list string :=
  match unseen_ids with
  | [] => []
  | email_id :: rest =>
      email_id :: (if srv_store srv email_id then reached srv rest else [])
  end.

(** The messages [_process_new_messages] and [_poll_once] reach: none
    when [select] or [search] raises. *)
Definition swept (srv : Server) : list string :=
  if srv_select srv then
    match srv_search srv with
    | Some unseen_ids => reached srv unseen_ids
    | None => []
    end
  else [].

(** The messages the sweep of [start] reaches: none when [search]
    raises. *)
Definition swept_at_start (srv : Server) : list string :=
  match srv_search srv with
  | Some unseen_ids => reached srv unseen_ids
  | None => []
  end.

(** [w'] comes from [w] by the events [evs]: the trace and the
    metadata log have grown by what [evs] says, files that [evs] did
    not open for writing are as they were, and no file has gone. *)
Definition footprint (w w' : World) (evs : list Event) : Prop :=
  trace w' = trace w ++ evs
  /\ json_log w' = json_log w ++ appended evs
  /\ (forall p, ~ In p (touched evs) -> files w' !! p = files w !! p)
  /\ (forall p, is_Some (files w !! p) -> is_Some (files w' !! p)).

(** The files opened for writing lie in the attachments directory,
    every record appended describes a write of the same run, and in
    Docker mode no record is appended. *)
Definition tidy (ok : Prop) (cfg : Config) (evs : list Event) : Prop :=
  Forall (inside_when ok (attachments_dir cfg)) (touched evs)
  /\ Forall (described evs) (appended evs)
  /\ (docker_mode cfg = true -> appended evs = []).

(** Every clock reading renders without a path separator, as
    [strftime('%Y%m%d_%H%M%S')] does. *)
Definition clock_ok (env : Env) : Prop :=
  forall n, sall (is_not "/"%char) (stamp (now env n)) = true.


(** The appends of a run that stopped part-way, leaving a piece of a
    line in the metadata log. *)
Definition torn_appends (evs : list Event) : list AttachmentRecord :=
  flat_map (fun e => match e with
                     | EvAppend r (IoWriteFailed (S _)) => [r]
                     | _ => []
                     end) evs.

(** The file system fails once: the second file operation cannot
    open its file. *)
Definition one_refusal : Env :=
  {| fs_result := fun n => match n with 1%nat => IoOpenFailed | _ => IoOk end;
     now := Samples.noon; decode_header := Samples.plain_header;
     bytes_decode := fun _ _ => None; pdf_summary := fun _ _ _ => None |}.

(** The directory after the writes [ws] have been made in order. *)
Definition written (ws : list (string * bytes)) (fs : gmap string bytes)
  : gmap string bytes :=
  fold_left (fun m pd => <[fst pd := snd pd]> m) ws fs.


(** The events of a run that write an analysis. *)
Definition summaries (evs : list Event) : list string :=
  flat_map (fun e => match e with EvSummary p _ => [p] | _ => [] end) evs.

End SweepForms.

(** ** Vocabulary for statements about the monitor *)
Module MonitorForms.
Import PyStr Pipeline Monitor.

(** The program points at which the monitor is about to use
    [self.mail]: to send a command, to read a line, or to sweep. *)
Definition on_connection (l : Loc) : bool :=
  match l with
  | AtStartConnect | AtConnect | AtSleep30 | AtFallbackLogout
  | AtFallbackConnect | AtSleep10 => false
  | _ => true
  end.

(** The program points at which a whole sweep of the mailbox is
    about to run. *)
Definition sweep_point (l : Loc) : bool :=
  match l with
  | AtStartSweep | AtProcess | AtPollOnce => true
  | _ => false
  end.

(** The events a sweep of the mailbox can give. *)
Definition sweeping (e : Event) : bool :=
  match e with
  | EvSelect | EvSearch | EvFetch _ | EvStore _ | EvWrite _ _ _
  | EvAppend _ _ | EvSummary _ _ | EvNoAttachments => true
  | _ => false
  end.

(** The other events of a run. *)
Definition control (w : World) : list Event :=
  List.filter (fun e => negb (sweeping e)) (trace w).

Definition failed_connect (e : Event) : bool :=
  match e with EvConnect false => true | _ => false end.

(** A pause of ten seconds or more, or the end of the process. *)
Definition calm (e : Event) : bool :=
  match e with
  | EvSleep seconds => (10 <=? seconds)%Z
  | EvExit _ | EvReturn => true
  | _ => false
  end.

(** The run [evs] ends on a connection attempt that failed. *)
Definition pending (evs : list Event) : bool :=
  match last evs with
  | Some e => failed_connect e
  | None => false
  end.

(** In [evs], what follows a failed connection attempt at once is a
    pause or the end. *)
Fixpoint paced (evs : list Event) : bool :=
  match evs with
  | [] => true
  | e :: rest =>
      (negb (failed_connect e)
       || match rest with
          | [] => true
          | e' :: _ => calm e'
          end)
      && paced rest
  end.

(** The answers to [IDLE], by the tests of lines 606 to 613: a line
    that acknowledges, a line that refuses, and a line that is passed
    over.  The first test is made on the bytes of the line and the
    others on their decoding; on a line of ASCII bytes both are the
    line itself. *)
Definition ascii_line (line : string) : bool := sall is_ascii line.

Definition acknowledges (tag line : string) : bool :=
  String.prefix "+ idling" line || (contains tag line && contains "OK" line).

Definition refuses (tag line : string) : bool :=
  negb (acknowledges tag line)
  && (contains "NO" line || contains "BAD" line).

Definition passed_over (tag line : string) : bool :=
  negb (acknowledges tag line)
  && negb (contains "NO" line || contains "BAD" line).

(** The world an outcome carries. *)
Definition outcome_world (o : Outcome) : option World :=
  match o with
  | Next st => Some (world st)
  | Halt w => Some w
  | Stuck => None
  end.

End MonitorForms.

(** ** The interactive set-up of the container

    [docker-entrypoint.py] asks for the credentials and the
    preferences, exports them with [create_config], and the watcher
    reads them back through the class attributes of [config.py]. *)
Module Entrypoint.
Import PyStr Pipeline Monitor.

(** [str.isspace] on one code point below U+0100; it agrees with [\s]. *)
Definition isspace (c : ascii) : bool := re_space c.

(** [s.lstrip()] *)
Fixpoint lstrip (s : string) : string :=
  match s with
  | EmptyString => EmptyString
  | String c s' => if isspace c then lstrip s' else s
  end.

(** [s.rstrip()] *)
Fixpoint rstrip (s : string) : string :=
  match s with
  | EmptyString => EmptyString
  | String c s' =>
      match rstrip s' with
      | EmptyString => if isspace c then EmptyString else String c EmptyString
      | r => String c r
      end
  end.

(** [s.strip()] *)
Definition strip (s : string) : string := rstrip (lstrip s).

(** The dictionary [get_user_input] returns. *)
Record Settings : Type := {
  gmail_address : string;
  gmail_password : string;
  enable_summary : bool;
  model : string
}.

(** The terminal is the list of the lines typed, oldest first:
    [input()] and [getpass.getpass()] take the next one, and raise
    [EOFError] when there is none.

    [while True: gmail_address = input(...).strip();
     if "@gmail.com" in gmail_address: break] *)
Fixpoint ask_address (typed : list string) : option (string * list string) :=
  match typed with
  | [] => None
  | line :: typed' =>
      let gmail_address := strip line in
      if contains "@gmail.com" gmail_address then Some (gmail_address, typed')
      else ask_address typed'
  end.

(** [while True: gmail_password = getpass.getpass(...).strip();
     if len(gmail_password) > 0: break] *)
Fixpoint ask_password (typed : list string) : option (string * list string) :=
  match typed with
  | [] => None
  | line :: typed' =>
      let gmail_password := strip line in
      if (0 <? String.length gmail_password)%nat
      then Some (gmail_password, typed')
      else ask_password typed'
  end.

(** [get_user_input]: the settings and the lines left on the
    terminal, or [None] when the terminal runs dry. *)
Definition get_user_input (typed : list string)
  : option (Settings * list string) :=
  match ask_address typed with
  | None => None
  | Some (gmail_address, typed) =>
      match ask_password typed with
      | None => None
      | Some (gmail_password, typed) =>
          match typed with
          | [] => None
          | answer :: typed =>
              let enable_summary :=
                negb (String.eqb (lower (strip answer)) "n") in
              if enable_summary then
                match typed with
                | [] => None
                | answer :: typed =>
                    let model_choice := strip answer in
                    let model :=
                      if String.eqb model_choice "2"
                      then "facebook/bart-large-cnn" else "t5-small" in
                    Some ({| gmail_address := gmail_address;
                             gmail_password := gmail_password;
                             enable_summary := enable_summary;
                             model := model |}, typed)
                end
              else
                Some ({| gmail_address := gmail_address;
                         gmail_password := gmail_password;
                         enable_summary := enable_summary;
                         model := "t5-small" |}, typed)
          end
      end
  end.

(** [os.environ] is a map from the variables to their values. *)









End Entrypoint.

(** ** The description of a document by its content *)
Module Describe.
Import PyStr Monitor Entrypoint.

(** [s.split(sep)] for a separator that is not empty: the pieces
    between the occurrences of [sep], found from the left without
    overlap.  [skip] counts the characters of an occurrence still to
    be passed over. *)
Fixpoint split_aux (sep s : string) (skip : nat) : list string :=
  match s with
  | EmptyString => [EmptyString]
  | String c s' =>
      match skip with
      | S k => split_aux sep s' k
      | O =>
          if String.prefix sep s
          then EmptyString :: split_aux sep s' (String.length sep - 1)
          else match split_aux sep s' 0 with
               | piece :: pieces => String c piece :: pieces
               | [] => [String c EmptyString]
               end
      end
  end.

Definition split_on (sep s : string) : list string := split_aux sep s 0.

Definition line_feed : string := String "010"%char EmptyString.

(** [any(word in text_lower for word in words)] *)
Definition any_in (words : list string) (text_lower : string) : bool :=
  existsb (fun word => contains word text_lower) words.

(** [[line for line in text.split('\n') if label in line.lower()][0]];
    [None] for [IndexError]. *)
Definition first_line_with (label text : string) : option string :=
  head (List.filter (fun line => contains label (lower line))
                    (split_on line_feed text)).

(** [line.split(opening)[1].split(closing)[0].strip()]; [None] for
    [IndexError]. *)
Definition field_between (opening closing line : string) : option string :=
  match split_on opening line with
  | _ :: piece :: _ =>
      match split_on closing piece with
      | first :: _ => Some (strip first)
      | [] => None
      end
  | _ => None
  end.

(** The certification named by the text. *)
Definition cert_type_of (text_lower : string) : string :=
  if contains "ai practitioner" text_lower
  then "AWS Certified AI Practitioner"
  else if contains "cloud practitioner" text_lower
  then "AWS Certified Cloud Practitioner"
  else if contains "solutions architect" text_lower
  then "AWS Certified Solutions Architect"
  else "AWS Certification".

(** [status], which nothing reads. *)
Definition status_of (text_lower : string) : string :=
  if contains "pass/fail: pass" text_lower then "PASS" else "FAIL".

(** [candidate_name]: the empty string unless the text has the label
    and the extraction goes through. *)
Definition candidate_name_of (text text_lower : string) : string :=
  if contains "candidate:" text_lower then
    match first_line_with "candidate:" text with
    | Some candidate_line =>
        match field_between "candidate:" "exam date:" candidate_line with
        | Some name => name
        | None => EmptyString               (* except: pass *)
        end
    | None => EmptyString                   (* except: pass *)
    end
  else EmptyString.

(** [score], likewise. *)
Definition score_of (text text_lower : string) : string :=
  if contains "candidate score:" text_lower then
    match first_line_with "candidate score:" text with
    | Some score_line =>
        match field_between "score:" "pass/fail:" score_line with
        | Some score => score
        | None => EmptyString               (* except: pass *)
        end
    | None => EmptyString                   (* except: pass *)
    end
  else EmptyString.

(** [_create_smart_description]; [None] is Python's [None]. *)
Definition create_smart_description (text : string) : option string :=
  let text_lower := lower text in
  if contains "aws certified" text_lower && contains "exam results" text_lower
  then
    let cert_type := cert_type_of text_lower in
    let status := status_of text_lower in
    let candidate_name := candidate_name_of text text_lower in
    let score := score_of text text_lower in
    let description :=
      "This document is an official " +:+ cert_type
        +:+ " exam results certificate. " in
    let description :=
      match candidate_name with
      | String _ _ =>
          description +:+ "It certifies that " +:+ candidate_name
            +:+ " has successfully "
      | EmptyString =>
          description +:+ "It certifies that the candidate has successfully "
      end in
    let description :=
      description +:+ "passed the AWS certification exam with a score of "
        +:+ match score with
            | String _ _ => score
            | EmptyString => "above the required threshold"
            end
        +:+ ". " in
    let description :=
      description +:+ "This document serves as proof of AWS cloud computing and AI/ML competency and can be used for professional validation." in
    Some description
  else if any_in ["invoice"; "bill"; "amount due"; "payment"] text_lower then
    Some "This document is a financial invoice or billing statement containing payment details, amounts due, and transaction information for goods or services provided."
  else if any_in ["agreement"; "contract"; "terms and conditions"; "legal"]
                 text_lower then
    Some "This document is a legal agreement or contract outlining terms, conditions, and obligations between parties for a specific arrangement or transaction."
  else if any_in ["manual"; "guide"; "instructions"; "how to"; "step by step"]
                 text_lower then
    Some "This document is an instructional manual or guide providing step-by-step procedures, best practices, and detailed information for specific tasks or operations."
  else if any_in ["report"; "analysis"; "findings"; "results"; "data"]
                 text_lower then
    Some "This document is an analytical report containing findings, data analysis, and insights on specific topics or business metrics for decision-making purposes."
  else None.

(** A score report as a testing centre prints it, with its labels
    capitalized. *)
Definition score_report : string :=
  "AWS Certified Cloud Practitioner" +:+ line_feed
    +:+ "Notice of Exam Results" +:+ line_feed
    +:+ "Candidate: Jane Doe Exam Date: 1/2/2024" +:+ line_feed
    +:+ "Candidate Score: 650 Pass/Fail: FAIL".

End Describe.

(** * Properties *)

(** ** Characters and strings *)
Module PyStrFacts.
Import PyStr.
Local Open Scope char_scope.

(** Decide a closed Boolean fact about one character by running through
    the 256 code points. *)
Ltac each_char c :=
  destruct c as [[] [] [] [] [] [] [] []]; vm_compute; reflexivity.


Lemma chr_lower_ascii c : is_ascii (chr_lower c) = is_ascii c.
Proof. each_char c. Qed.

Lemma chr_lower_safe c : implb (safe_char c) (safe_char (chr_lower c)) = true.
Proof. each_char c. Qed.

Lemma chr_lower_eqb_dot c : Ascii.eqb (chr_lower c) "." = Ascii.eqb c ".".
Proof. each_char c. Qed.

Lemma chr_lower_eqb_slash c : Ascii.eqb (chr_lower c) "/" = Ascii.eqb c "/".
Proof. each_char c. Qed.

Lemma append_nil_l (b : string) : EmptyString +:+ b = b.
Proof. reflexivity. Qed.

Lemma append_cons (c : ascii) (a b : string) :
  String c a +:+ b = String c (a +:+ b).
Proof. reflexivity. Qed.

(** [simpl] leaves [+:+] alone; unfold it by its two equations. *)
Ltac ssimpl := simpl; rewrite ?append_cons, ?append_nil_l; simpl.

Lemma sall_app p a b : sall p (a +:+ b) = sall p a && sall p b.
Proof.
  induction a as [|c a IH]; ssimpl; [reflexivity|].
  rewrite IH. apply andb_assoc.
Qed.

Lemma sall_smap p f s : sall p (smap f s) = sall (fun c => p (f c)) s.
Proof. induction s as [|c s IH]; simpl; [reflexivity|]. now rewrite IH. Qed.

Lemma sall_impl (p q : ascii -> bool) s :
  (forall c, p c = true -> q c = true) ->
  sall p s = true -> sall q s = true.
Proof.
  intros Hpq. induction s as [|c s IH]; simpl; [reflexivity|].
  intros [Hc Hs]%andb_true_iff. rewrite (Hpq _ Hc). simpl. auto.
Qed.

Lemma sall_substring p n m s :
  sall p s = true -> sall p (String.substring n m s) = true.
Proof.
  revert n m. induction s as [|c s IH]; intros n m H.
  - destruct n, m; reflexivity.
  - simpl in H. apply andb_true_iff in H as [Hc Hs].
    destruct n as [|n]; simpl.
    + destruct m as [|m]; simpl; [reflexivity|].
      rewrite Hc. simpl. apply IH, Hs.
    + apply IH, Hs.
Qed.


Lemma smap_app f a b : smap f (a +:+ b) = smap f a +:+ smap f b.
Proof. induction a as [|c a IH]; ssimpl; congruence. Qed.




Lemma app_assoc_s (a b c : string) : (a +:+ b) +:+ c = a +:+ (b +:+ c).
Proof. induction a as [|x a IH]; ssimpl; congruence. Qed.

Lemma app_nil_r_s (a : string) : a +:+ EmptyString = a.
Proof. induction a as [|x a IH]; ssimpl; congruence. Qed.

Lemma length_app_s (a b : string) :
  String.length (a +:+ b) = String.length a + String.length b.
Proof. induction a as [|x a IH]; ssimpl; congruence. Qed.

Lemma substring_app_l (a b : string) :
  String.substring 0 (String.length a) (a +:+ b) = a.
Proof. induction a as [|x a IH]; ssimpl; [now destruct b|congruence]. Qed.

Lemma substring_app_r (a b : string) :
  String.substring (String.length a) (String.length b) (a +:+ b) = b.
Proof.
  induction a as [|x a IH]; ssimpl; [|exact IH].
  clear. induction b as [|y b IHb]; simpl; [reflexivity|].
  f_equal. exact IHb.
Qed.

Lemma app_inv_head_s (a b c : string) : a +:+ b = a +:+ c -> b = c.
Proof. induction a as [|x a IH]; ssimpl; [auto|]. intros [= H]. auto. Qed.

(** [endswith] holds of every concatenation. *)
Lemma endswith_app a b : endswith (a +:+ b) b = true.
Proof.
  unfold endswith. rewrite length_app_s.
  apply andb_true_iff. split.
  - apply Nat.leb_le. lia.
  - replace (String.length a + String.length b - String.length b)
      with (String.length a) by lia.
    rewrite substring_app_r. apply String.eqb_refl.
Qed.

End PyStrFacts.

(** ** The matcher *)
Module ReFacts.
Import PyStr Re PyStrFacts.

(** A successful [+] loop hands a strictly shorter rest to its
    continuation. *)
Lemma plus_greedy_inv {R} p s (k : string -> option R) r :
  plus_greedy p s k = Some r ->
  exists s', String.length s' < String.length s /\ k s' = Some r.
Proof.
  revert r. induction s as [|c s IH]; simpl; intros r H; [discriminate|].
  destruct (p c); [|discriminate].
  destruct (plus_greedy p s k) as [r'|] eqn:E.
  - injection H as <-. destruct (IH _ eq_refl) as (s' & Hl & Hk).
    exists s'. split; [lia|exact Hk].
  - exists s. split; [lia|exact H].
Qed.

Lemma plus_lazy_inv {R} p s (k : string -> option R) r :
  plus_lazy p s k = Some r ->
  exists s', String.length s' < String.length s /\ k s' = Some r.
Proof.
  revert r. induction s as [|c s IH]; simpl; intros r H; [discriminate|].
  destruct (p c); [|discriminate].
  destruct (k s) as [r'|] eqn:E.
  - injection H as <-. exists s. split; [lia|exact E].
  - destruct (IH _ H) as (s' & Hl & Hk). exists s'. split; [lia|exact Hk].
Qed.

(** *** Matching commutes with a character map that the classes of the
    pattern cannot tell from the identity *)
Section Map.
Variable f : ascii -> ascii.






End Map.

(** *** Captured text is made of characters of the subject *)
Section Within.
Variable q : ascii -> bool.

Lemma sall_tail c s : sall q (String c s) = true -> sall q s = true.
Proof. simpl. intros [_ H]%andb_true_iff. exact H. Qed.

Lemma plus_greedy_within {R} (good : R -> Prop) p s (k : string -> option R) r :
  sall q s = true ->
  (forall s' r', sall q s' = true -> k s' = Some r' -> good r') ->
  plus_greedy p s k = Some r -> good r.
Proof.
  intros Hs Hk. revert r. induction s as [|c s IH]; simpl; intros r H;
    [discriminate|].
  destruct (p c); [|discriminate].
  pose proof (sall_tail _ _ Hs) as Ht.
  destruct (plus_greedy p s k) as [r'|] eqn:E.
  - injection H as <-. apply (IH Ht). reflexivity.
  - apply (Hk s); assumption.
Qed.

Lemma plus_lazy_within {R} (good : R -> Prop) p s (k : string -> option R) r :
  sall q s = true ->
  (forall s' r', sall q s' = true -> k s' = Some r' -> good r') ->
  plus_lazy p s k = Some r -> good r.
Proof.
  intros Hs Hk. revert r. induction s as [|c s IH]; simpl; intros r H;
    [discriminate|].
  destruct (p c); [|discriminate].
  pose proof (sall_tail _ _ Hs) as Ht.
  destruct (k s) as [r'|] eqn:E.
  - injection H as <-. apply (Hk s); assumption.
  - apply (IH Ht). exact H.
Qed.

Lemma rmatch_within r :
  forall s m k res,
    sall q s = true -> caps_all q m ->
    (forall s' m' res', sall q s' = true -> caps_all q m' ->
                        k s' m' = Some res' -> caps_all q res') ->
    rmatch r s m k = Some res -> caps_all q res.
Proof.
  induction r as [a|p|p|p|r1 IH1 r2 IH2|r1 IH1 r2 IH2|n r1 IH1];
    simpl; intros s m k res Hs Hm Hk H.
  - destruct s as [|c s]; [discriminate|].
    destruct (Ascii.eqb c a); [|discriminate].
    apply (Hk s m); eauto using sall_tail.
  - destruct s as [|c s]; [discriminate|].
    destruct (p c); [|discriminate].
    apply (Hk s m); eauto using sall_tail.
  - apply (plus_greedy_within (caps_all q) p s (fun s' => k s' m) res Hs);
      [|exact H].
    intros s' r' Hs' Hr'. apply (Hk s' m); assumption.
  - apply (plus_lazy_within (caps_all q) p s (fun s' => k s' m) res Hs);
      [|exact H].
    intros s' r' Hs' Hr'. apply (Hk s' m); assumption.
  - refine (IH1 s m _ res Hs Hm _ H).
    intros s' m' res' Hs' Hm' H'. apply (IH2 s' m' k res' Hs' Hm' Hk H').
  - destruct (rmatch r1 s m k) as [res'|] eqn:E.
    + injection H as <-. apply (IH1 s m k res' Hs Hm Hk E).
    + apply (IH2 s m k res Hs Hm Hk H).
  - refine (IH1 s m _ res Hs Hm _ H).
    intros s' m' res' Hs' Hm' H'. refine (Hk s' _ res' Hs' _ H').
    constructor; [|exact Hm']. simpl. apply sall_substring, Hs.
Qed.

Lemma caps_all_nil : caps_all q [].
Proof. constructor. Qed.

Lemma search_within r s m :
  sall q s = true -> search r s = Some m -> caps_all q m.
Proof.
  induction s as [|c s IH]; intros Hs H.
  - simpl in H.
    destruct (rmatch r EmptyString [] _) as [m'|] eqn:E; [|discriminate].
    injection H as <-.
    apply (rmatch_within r _ _ _ _ Hs caps_all_nil) in E; [exact E|].
    intros ? ? ? _ Hm' [= <-]. exact Hm'.
  - cbn [search] in H.
    destruct (rmatch r (String c s) [] _) as [m'|] eqn:E.
    + injection H as <-.
      apply (rmatch_within r _ _ _ _ Hs caps_all_nil) in E; [exact E|].
      intros ? ? ? _ Hm' [= <-]. exact Hm'.
    + apply IH; [eauto using sall_tail|exact H].
Qed.

Lemma group_within m n a :
  caps_all q m -> group m n = Some a -> sall q a = true.
Proof.
  induction 1 as [|[k s] m Hs Hm IH]; simpl; [discriminate|].
  destruct (Nat.eqb k n); [intros [= <-]; exact Hs|exact IH].
Qed.
End Within.

End ReFacts.

(** ** The file-name sanitizer *)
Module SanitizerFacts.
Import PyStr Re Sanitizer PyStrFacts ReFacts.
Local Open Scope char_scope.





Lemma substring_0_pos n c s :
  0 < n -> exists x, String.substring 0 n (String c s) = String c x.
Proof. destruct n as [|n]; [lia|]. intros _. simpl. eauto. Qed.

(** Every match of [email_re] closes group 1 on a non-empty text or
    closes group 2, so [group_or] is never [None] on a match. *)
Lemma email_match_groups s m :
  rmatch email_re s [] (fun _ m => Some m) = Some m ->
  (exists c x, m = [(1, String c x)]) \/ (exists x, m = [(2, x)]).
Proof.
  unfold email_re. cbn [rmatch].
  match goal with
  | |- match ?a with _ => _ end = _ -> _ => destruct a as [res|] eqn:EA
  end.
  - intros [= <-]. left.
    destruct s as [|c s]; [discriminate|].
    destruct (Ascii.eqb c "<"); [|discriminate].
    apply plus_lazy_inv in EA as (s' & Hl & Hk).
    destruct s' as [|c' s']; [discriminate|].
    destruct (Ascii.eqb c' ">"); [|discriminate].
    injection Hk as <-.
    destruct s as [|d s]; [simpl in Hl; lia|]. simpl in *.
    destruct (String.length s - String.length s') eqn:En; [lia|eauto].
  - intros H. right.
    apply plus_greedy_inv in H as (s1 & _ & H).
    destruct s1 as [|c1 s1]; [discriminate|].
    destruct (Ascii.eqb c1 "@"); [|discriminate].
    apply plus_greedy_inv in H as (s2 & _ & H).
    injection H as <-. eauto.
Qed.

Lemma email_re_groups s m :
  search email_re s = Some m -> exists a, group_or m = Some a.
Proof.
  assert (Hm : forall s, rmatch email_re s [] (fun _ m => Some m) = Some m ->
                         exists a, group_or m = Some a).
  { intros s0 H. apply email_match_groups in H as [(c & x & ->)|(x & ->)];
      unfold group_or; simpl; eauto. }
  induction s as [|c s IH]; cbn [search].
  - destruct (rmatch email_re EmptyString [] _) as [m'|] eqn:E; [|discriminate].
    intros [= <-]. eauto.
  - destruct (rmatch email_re (String c s) [] _) as [m'|] eqn:E.
    + intros [= <-]. eauto.
    + exact IH.
Qed.

(** The extracted address is made of characters of the sender. *)
Lemma email_addr_of_within q sender :
  sall q sender = true -> sall q (email_addr_of sender) = true.
Proof.
  intros Hs. unfold email_addr_of.
  destruct (search email_re sender) as [m|] eqn:E; [|exact Hs].
  pose proof (search_within q _ _ _ Hs E) as Hm.
  unfold group_or.
  destruct (group m 1) as [[|c a]|] eqn:E1.
  - destruct (group m 2) as [a|] eqn:E2; [|reflexivity].
    eapply group_within; eauto.
  - eapply group_within; eauto.
  - destruct (group m 2) as [a|] eqn:E2; [|reflexivity].
    eapply group_within; eauto.
Qed.

End SanitizerFacts.

(** ** [rfind] and [splitext] *)
Module SplitextFacts.
Import PyStr PyStrFacts.
Local Open Scope char_scope.
Local Open Scope Z_scope.

Lemma len_cons c s : len (String c s) = len s + 1.
Proof. unfold len. simpl String.length. lia. Qed.

Lemma len_app a b : len (a +:+ b) = len a + len b.
Proof. unfold len. rewrite length_app_s. lia. Qed.

Lemma len_nonneg s : 0 <= len s.
Proof. unfold len. lia. Qed.

Lemma rfind_bounds c s : -1 <= rfind c s < len s.
Proof.
  induction s as [|a s IH]; [unfold len; simpl; lia|].
  rewrite len_cons. simpl.
  destruct (0 <=? rfind c s) eqn:E; [lia|].
  destruct (Ascii.eqb a c); lia.
Qed.

Lemma rfind_none c s : sall (is_not c) s = true -> rfind c s = -1.
Proof.
  induction s as [|a s IH]; simpl; [reflexivity|].
  intros [Ha Hs]%andb_true_iff. rewrite (IH Hs). simpl.
  unfold is_not in Ha. apply negb_true_iff in Ha. now rewrite Ha.
Qed.

Lemma rfind_neg c s : rfind c s < 0 -> sall (is_not c) s = true.
Proof.
  induction s as [|a s IH]; simpl; [reflexivity|].
  destruct (0 <=? rfind c s) eqn:E.
  - apply Z.leb_le in E. lia.
  - apply Z.leb_gt in E. unfold is_not at 1.
    destruct (Ascii.eqb a c); [lia|]. intros _. simpl. auto.
Qed.

Lemma rfind_app c a b :
  rfind c (a +:+ b) =
  if 0 <=? rfind c b then len a + rfind c b else rfind c a.
Proof.
  induction a as [|x a IH]; ssimpl.
  - pose proof (rfind_bounds c b).
    destruct (0 <=? rfind c b) eqn:E; [unfold len; simpl; lia|].
    apply Z.leb_gt in E. lia.
  - rewrite IH, len_cons. pose proof (len_nonneg a).
    destruct (0 <=? rfind c b) eqn:E; [|reflexivity].
    apply Z.leb_le in E.
    destruct (0 <=? len a + rfind c b) eqn:E'; [lia|].
    apply Z.leb_gt in E'. lia.
Qed.

Lemma rfind_split c s :
  0 <= rfind c s ->
  exists a b, s = a +:+ String c b /\ len a = rfind c s
              /\ sall (is_not c) b = true.
Proof.
  induction s as [|x s IH]; simpl; [lia|].
  destruct (0 <=? rfind c s) eqn:E.
  - intros _. apply Z.leb_le in E. destruct (IH E) as (a & b & -> & Hl & Hb).
    exists (String x a), b. rewrite len_cons, Hl. auto.
  - apply Z.leb_gt in E. destruct (Ascii.eqb x c) eqn:Ex; [|lia].
    intros _. apply Ascii.eqb_eq in Ex as ->.
    exists EmptyString, s. split; [reflexivity|]. split; [reflexivity|].
    apply rfind_neg, E.
Qed.

Lemma slice_to_app a b : slice_to (a +:+ b) (len a) = a.
Proof. unfold slice_to, len. rewrite Nat2Z.id. apply substring_app_l. Qed.

Lemma slice_from_app a b : slice_from (a +:+ b) (len a) = b.
Proof.
  unfold slice_from, len. rewrite Nat2Z.id, length_app_s.
  replace (String.length a + String.length b - String.length a)%nat
    with (String.length b) by lia.
  apply substring_app_r.
Qed.

Lemma char_at_app a c b : char_at (a +:+ String c b) (len a) = Some c.
Proof.
  unfold char_at, len.
  destruct (Z.of_nat (String.length a) <? 0) eqn:E;
    [apply Z.ltb_lt in E; lia|].
  rewrite Nat2Z.id. clear E. induction a as [|x a IH]; ssimpl; auto.
Qed.

Lemma non_dot_before_true p j c n : forall i,
  i <= j -> j < i + Z.of_nat n ->
  char_at p j = Some c -> is_char "." c = false ->
  non_dot_before p i n = true.
Proof.
  induction n as [|n IH]; intros i Hij Hj Hc Hdot; [lia|].
  simpl. destruct (char_at p i) as [c0|] eqn:E; [|reflexivity].
  destruct (is_char "." c0) eqn:E0; [|reflexivity]. simpl.
  apply IH; try assumption; [|lia].
  destruct (Z.eq_dec i j) as [->|]; [|lia]. congruence.
Qed.

(** A non-empty extension starts with its only dot and holds no
    separator. *)
Lemma splitext_ext_shape p :
  snd (splitext p) = EmptyString \/
  exists e, snd (splitext p) = String "." e
            /\ sall (is_not ".") e = true /\ sall (is_not "/") e = true.
Proof.
  unfold splitext.
  destruct (rfind "/" p <? rfind "." p) eqn:E; [|now left].
  destruct (non_dot_before _ _ _); [|now left]. right. simpl.
  apply Z.ltb_lt in E. pose proof (rfind_bounds "/" p).
  destruct (rfind_split "." p) as (a & b & Hp & Hl & Hb); [lia|].
  exists b. rewrite <- Hl. rewrite Hp at 1. rewrite slice_from_app.
  split; [reflexivity|]. split; [exact Hb|].
  rewrite Hp, rfind_app in E.
  destruct (0 <=? rfind "/" (String "." b)) eqn:E'.
  - apply Z.leb_le in E'. rewrite <- Hp in E. lia.
  - apply Z.leb_gt in E'. apply rfind_neg in E'. simpl in E'. exact E'.
Qed.

Lemma splitext_fst_within q p :
  sall q p = true -> sall q (fst (splitext p)) = true.
Proof.
  intros H. unfold splitext.
  destruct (_ <? _); [|exact H].
  destruct (non_dot_before _ _ _); [|exact H].
  apply sall_substring, H.
Qed.

(** The split of a name whose last dot comes after an underscore that
    no separator follows. *)
Lemma splitext_after_underscore B cn e :
  sall (is_not "/") cn = true ->
  sall (is_not ".") e = true -> sall (is_not "/") e = true ->
  splitext (B +:+ String "_" (cn +:+ String "." e))
  = (B +:+ String "_" cn, String "." e).
Proof.
  intros Hcn He1 He2.
  set (A := B +:+ String "_" cn).
  assert (Hp : B +:+ String "_" (cn +:+ String "." e) = A +:+ String "." e).
  { unfold A. now rewrite app_assoc_s, append_cons. }
  assert (Hdot : rfind "." (A +:+ String "." e) = len A).
  { rewrite rfind_app. simpl. rewrite (rfind_none _ _ He1). simpl. lia. }
  assert (Hsep : rfind "/" (A +:+ String "." e) = rfind "/" B).
  { rewrite rfind_app. simpl. rewrite (rfind_none _ _ He2). simpl.
    unfold A. rewrite rfind_app. simpl. now rewrite (rfind_none _ _ Hcn). }
  assert (HA : len A = len B + 1 + len cn).
  { unfold A. rewrite len_app, len_cons. lia. }
  pose proof (rfind_bounds "/" B) as HB. pose proof (len_nonneg cn) as Hn.
  rewrite Hp. unfold splitext. rewrite Hdot, Hsep.
  destruct (rfind "/" B <? len A) eqn:E; [|apply Z.ltb_ge in E; lia].
  rewrite (non_dot_before_true _ (len B) "_").
  - now rewrite slice_to_app, slice_from_app.
  - lia.
  - lia.
  - rewrite <- Hp. apply char_at_app.
  - reflexivity.
Qed.

End SplitextFacts.

(** ** Claims about [_sanitize_filename] *)
Module SanitizerSpec.
Import PyStr Re Sanitizer PyStrFacts ReFacts SanitizerFacts SplitextFacts.
Local Open Scope char_scope.

Lemma sall_sub_class (r p q : ascii -> bool) repl s :
  (forall c, r c = true -> p c = false -> q c = true) ->
  sall q repl = true -> sall r s = true ->
  sall q (sub_class p repl s) = true.
Proof.
  intros Hc Hrepl. induction s as [|c s IH]; simpl; [reflexivity|].
  intros [Hr Hs]%andb_true_iff. rewrite sall_app, (IH Hs), andb_true_r.
  destruct (p c) eqn:Ep; [exact Hrepl|]. simpl. now rewrite (Hc c Hr Ep).
Qed.

Lemma ascii_word_dash_safe c :
  implb (is_ascii c && negb (not_word_dash c)) (safe_char c) = true.
Proof. each_char c. Qed.

Lemma ascii_word_dash_dot_safe c :
  implb (is_ascii c && negb (not_word_dash_dot c)) (safe_char c) = true.
Proof. each_char c. Qed.

Lemma word_dash_dot_not_slash c :
  implb (negb (not_word_dash_dot c)) (is_not "/" c) = true.
Proof. each_char c. Qed.

Lemma implb_elim (a b : bool) : implb a b = true -> a = true -> b = true.
Proof. destruct a, b; auto. Qed.

Lemma clean_sender_safe sender :
  sall is_ascii sender = true -> sall safe_char (clean_sender_of sender) = true.
Proof.
  intros Hs. unfold clean_sender_of.
  apply (sall_sub_class is_ascii).
  - intros c Ha Hp. apply (implb_elim _ _ (ascii_word_dash_safe c)).
    now rewrite Ha, Hp.
  - reflexivity.
  - apply (sall_sub_class is_ascii); [auto|reflexivity|].
    unfold lower. rewrite sall_smap.
    apply (sall_impl is_ascii); [intros c; now rewrite chr_lower_ascii|].
    apply email_addr_of_within, Hs.
Qed.

Lemma clean_name_safe name :
  sall is_ascii name = true ->
  sall safe_char (sub_class not_word_dash_dot "_" name) = true.
Proof.
  apply (sall_sub_class is_ascii); [|reflexivity].
  intros c Ha Hp. apply (implb_elim _ _ (ascii_word_dash_dot_safe c)).
  now rewrite Ha, Hp.
Qed.

Lemma clean_name_no_slash name :
  sall (is_not "/") (sub_class not_word_dash_dot "_" name) = true.
Proof.
  apply (sall_sub_class (fun _ => true)).
  - intros c _ Hp. apply (implb_elim _ _ (word_dash_dot_not_slash c)).
    now rewrite Hp.
  - reflexivity.
  - induction name as [|c s IH]; simpl; auto.
Qed.

Lemma lower_safe s : sall safe_char s = true -> sall safe_char (lower s) = true.
Proof.
  unfold lower. rewrite sall_smap. apply sall_impl.
  intros c. apply implb_elim, chr_lower_safe.
Qed.

Lemma lower_is_not a s :
  (forall c, Ascii.eqb (chr_lower c) a = Ascii.eqb c a) ->
  sall (is_not a) s = true -> sall (is_not a) (lower s) = true.
Proof.
  intros Ha. unfold lower. rewrite sall_smap. apply sall_impl.
  intros c. unfold is_not. now rewrite Ha.
Qed.

(** C6.  The scenario of the specification: sender
    ["Jane Doe <jane@ex.com>"], attachment ["Report (Final).PDF"] and
    timestamp [20240101_120000] give the stored name
    [jane_ex_com_20240101_120000_Report__Final_.pdf]. *)
Example sanitize_filename_jane :
  sanitize_filename "Report (Final).PDF" "Jane Doe <jane@ex.com>"
                    "20240101_120000"
  = "jane_ex_com_20240101_120000_Report__Final_.pdf"%string.
Proof. vm_compute. reflexivity. Qed.


(** C5, as the code has it.  The result always ends with the lower-cased
    extension of the original name, and that is the extension of the
    result whenever it is not empty.  The result is made of characters
    of [[A-Za-z0-9_.-]] when sender and original name are ASCII and the
    timestamp and the original extension are made of such characters:
    the stem is substituted, the extension is only lower-cased, the
    timestamp is copied, and [\w] keeps letters and digits outside
    ASCII. *)
Theorem sanitize_filename_safe (filename sender timestamp : string) :
  let out := sanitize_filename filename sender timestamp in
  let ext := snd (splitext filename) in
  (endswith out (lower ext) = true
   /\ (ext <> EmptyString -> snd (splitext out) = lower ext))
  /\ (sall is_ascii sender = true -> sall is_ascii filename = true ->
      sall safe_char timestamp = true -> sall safe_char ext = true ->
      sall safe_char out = true).
Proof.
  unfold sanitize_filename.
  pose proof (splitext_ext_shape filename) as Hshape.
  pose proof (fun q => splitext_fst_within q filename) as Hname.
  destruct (splitext filename) as [name ext]. simpl in *.
  split; [split|].
  - rewrite <- !app_assoc_s. apply endswith_app.
  - intros Hne. destruct Hshape as [->|(e & -> & He1 & He2)]; [easy|].
    unfold lower. simpl smap. fold (lower e).
    change (chr_lower ".") with ".".
    match goal with
    | |- snd (splitext ?o) = _ =>
        replace o with
          ((clean_sender_of sender +:+ String "_" timestamp)
             +:+ String "_" (sub_class not_word_dash_dot "_" name
                               +:+ String "." (lower e)))
          by (now rewrite app_assoc_s, !append_cons, !append_nil_l)
    end.
    rewrite splitext_after_underscore; [reflexivity| | |].
    + apply clean_name_no_slash.
    + apply lower_is_not; [apply chr_lower_eqb_dot|exact He1].
    + apply lower_is_not; [apply chr_lower_eqb_slash|exact He2].
  - intros Hs Hf Ht He. rewrite !sall_app.
    rewrite (clean_sender_safe _ Hs), Ht, (clean_name_safe _ (Hname _ Hf)),
      (lower_safe _ He).
    reflexivity.
Qed.

Lemma sanitize_filename_safe_witness :
  sall safe_char
       (sanitize_filename "Report (Final).PDF" "Jane Doe <jane@ex.com>"
                          "20240101_120000") = true
  /\ snd (splitext
            (sanitize_filename "Report (Final).PDF" "Jane Doe <jane@ex.com>"
                               "20240101_120000")) = ".pdf"%string.
Proof.
  destruct (sanitize_filename_safe "Report (Final).PDF"
              "Jane Doe <jane@ex.com>" "20240101_120000") as [[_ Hext] Hsafe].
  split.
  - apply Hsafe; reflexivity.
  - apply Hext. discriminate.
Defined.

(** C5 as stated fails.  The extension is not substituted, so a blank
    after the last dot of the original name reaches the result; a name
    without extension that starts with a dot gives a result whose
    extension is not empty; [\w] keeps a letter outside ASCII (here
    U+00E9); and the timestamp is copied as it is. *)
Lemma sanitize_filename_unsafe :
  sall safe_char
       (sanitize_filename "Notes v2.0 final" "Jane Doe <jane@ex.com>"
                          "20240101_120000") = false
  /\ (snd (splitext ".bashrc") = EmptyString
      /\ snd (splitext (sanitize_filename ".bashrc" "Jane Doe <jane@ex.com>"
                                          "20240101_120000"))
         = ".bashrc"%string)
  /\ sall safe_char
          (sanitize_filename (String "233" "tude.pdf") "Jane Doe <jane@ex.com>"
                             "20240101_120000") = false
  /\ sall safe_char
          (sanitize_filename "a.pdf" "Jane Doe <jane@ex.com>"
                             "2024/01/01 12:00") = false.
Proof. vm_compute. repeat split. Qed.

End SanitizerSpec.

(** ** The pipeline *)
Module PipelineFacts.
Import PyStr Sanitizer Pipeline PyStrFacts SplitextFacts.

Lemma attempted_writes_app a b :
  attempted_writes (a ++ b) = attempted_writes a ++ attempted_writes b.
Proof. apply flat_map_app. Qed.

Lemma stores_app a b : stores (a ++ b) = stores a ++ stores b.
Proof. apply flat_map_app. Qed.

Lemma path_join_inj parent a b :
  path_join parent a = path_join parent b -> a = b.
Proof.
  unfold path_join. now intros H%app_inv_head_s%app_inv_head_s.
Qed.

(** The analysis artefact never has the name of the file it describes. *)
Lemma stem_summary_ne name : path_stem name +:+ "_summary.txt" <> name.
Proof.
  unfold path_stem.
  destruct ((0 <? rfind "." name) && (rfind "." name <? len name - 1))%Z eqn:E.
  - apply andb_true_iff in E as [E _]. apply Z.ltb_lt in E.
    destruct (rfind_split "." name) as (a & b & Hp & Hl & _); [lia|].
    rewrite <- Hl. subst name. rewrite slice_to_app.
    intros H%app_inv_head_s. discriminate H.
  - intros H%(f_equal String.length). rewrite length_app_s in H.
    simpl in H. lia.
Qed.

Lemma summary_path_ne parent name :
  path_join parent (path_stem name +:+ "_summary.txt") <> path_join parent name.
Proof. intros H%path_join_inj. exact (stem_summary_ne _ H). Qed.

Lemma extends_refl w : extends w w [].
Proof. unfold extends. now rewrite app_nil_r. Qed.

Lemma extends_trans w1 w2 w3 e1 e2 :
  extends w1 w2 e1 -> extends w2 w3 e2 -> extends w1 w3 (e1 ++ e2).
Proof. unfold extends. intros H1 H2. now rewrite H2, H1, app_assoc. Qed.

Lemma extends_emit e w : extends w (emit e w) [e].
Proof. reflexivity. Qed.

Section WithEnv.
Variable cfg : Config.
Variable env : Env.

Lemma store_bytes_trace path data o w :
  trace (store_bytes path data o w) = trace w.
Proof. destruct o; reflexivity. Qed.

Lemma store_bytes_json path data o w :
  json_log (store_bytes path data o w) = json_log w.
Proof. destruct o; reflexivity. Qed.

Lemma store_bytes_other path data o w p :
  p <> path -> files (store_bytes path data o w) !! p = files w !! p.
Proof.
  intros Hp. destruct o; simpl; [|reflexivity|];
    now rewrite lookup_insert_ne by congruence.
Qed.

Lemma process_pdf_extends parent name info w :
  exists evs, extends w (process_pdf env parent name info w) evs
              /\ attempted_writes evs = [] /\ stores evs = [].
Proof.
  unfold process_pdf. destruct (pdf_summary env _ _ _) as [doc|].
  - exists [EvSummary (path_join parent (path_stem name +:+ "_summary.txt"))
                      (fs_result env (fs_ops w))].
    split; [|split; reflexivity].
    unfold extends. simpl. now rewrite store_bytes_trace.
  - exists []. split; [apply extends_refl|]. split; reflexivity.
Qed.

Lemma process_pdf_json parent name info w :
  json_log (process_pdf env parent name info w) = json_log w.
Proof.
  unfold process_pdf. destruct (pdf_summary env _ _ _); [|reflexivity].
  simpl. now rewrite store_bytes_json.
Qed.

Lemma process_pdf_file parent name info w :
  files (process_pdf env parent name info w) !! path_join parent name
  = files w !! path_join parent name.
Proof.
  unfold process_pdf. destruct (pdf_summary env _ _ _); [|reflexivity].
  simpl. rewrite store_bytes_other; [reflexivity|].
  intros H. symmetry in H. exact (summary_path_ne _ _ H).
Qed.

Lemma write_file_spec path data w o w1 :
  write_file env path data w = (o, w1) ->
  o = fs_result env (fs_ops w)
  /\ extends w w1 [EvWrite path data o]
  /\ json_log w1 = json_log w /\ ticks w1 = ticks w
  /\ (o = IoOk -> files w1 !! path = Some data).
Proof.
  unfold write_file. intros [= <- <-]. split; [reflexivity|].
  split; [unfold extends; simpl; now rewrite store_bytes_trace|].
  split; [simpl; now rewrite store_bytes_json|].
  split; [now destruct (fs_result env (fs_ops w))|].
  intros ->. simpl. apply lookup_insert_eq.
Qed.

Lemma read_clock_spec w t w2 :
  read_clock env w = (t, w2) ->
  t = now env (ticks w) /\ trace w2 = trace w
  /\ json_log w2 = json_log w /\ files w2 = files w.
Proof. unfold read_clock. intros [= <- <-]. auto. Qed.

Lemma append_record_spec r w o w3 :
  append_record env r w = (o, w3) ->
  extends w w3 [EvAppend r o] /\ files w3 = files w
  /\ (o = IoOk -> json_log w3 = json_log w ++ [r]).
Proof.
  unfold append_record. intros [= <- <-].
  destruct (fs_result env (fs_ops w)); simpl; unfold extends; auto;
    (split; [reflexivity|split; [reflexivity|discriminate]]).
Qed.

Section Attachment.
Variables (data : bytes) (filename sender subject timestamp : string).
Variable w : World.

Let path : string :=
  path_join (attachments_dir cfg)
            (sanitize_filename filename sender timestamp).

Let info (t : Instant) : AttachmentRecord :=
  {| info_timestamp := iso t;
     info_sender := sender;
     info_subject := subject;
     original_filename := filename;
     saved_filename := sanitize_filename filename sender timestamp;
     file_size := Z.of_nat (length data);
     file_path := path |}.

Let result : option string * World :=
  process_attachment cfg env data filename sender subject timestamp w.

(** Split [_process_attachment] along its branches. *)
Ltac attachment_cases :=
  subst result; unfold process_attachment;
  destruct (write_file env _ data w) as [o w1] eqn:Ew;
  apply write_file_spec in Ew as (Ho & Hw1 & Hj1 & Ht1 & Hf1);
  destruct o;
  [ destruct (read_clock env w1) as [t w2] eqn:Ec;
    apply read_clock_spec in Ec as (Ht & Hw2 & Hj2 & Hf2);
    destruct (docker_mode cfg);
    [ | match goal with
        | |- context [append_record env ?r w2] =>
            destruct (append_record env r w2) as [o2 w3] eqn:Ea;
            apply append_record_spec in Ea as (Hw3 & Hf3 & Hj3);
            destruct o2
        end ];
    try destruct (endswith (lower filename) ".pdf"
                  && ENABLE_SUMMARIZATION cfg)
  | | ]; cbn [fst snd].

(** One attempt to write, whatever comes of it, and no [store]. *)
Lemma process_attachment_extends :
  exists evs, extends w (snd result) evs
              /\ attempted_writes evs = [(path, data)]
              /\ stores evs = [].
Proof.
  attachment_cases;
    try match goal with
        | |- context [process_pdf env ?p ?n ?i ?w0] =>
            destruct (process_pdf_extends p n i w0) as (evs & He & Hw & Hs)
        end;
    unfold extends in *; rewrite ?He, ?Hw3, ?Hw2, ?Hw1;
    rewrite <- ?app_assoc;
    (eexists; split; [reflexivity|]);
    rewrite ?attempted_writes_app, ?stores_app, ?Hw, ?Hs; simpl; auto.
Qed.

(** A stored path is returned only when the write went through. *)
Lemma process_attachment_saved p :
  fst result = Some p -> p = path /\ fs_result env (fs_ops w) = IoOk.
Proof.
  attachment_cases; intros [= <-]; auto.
Qed.

(** After a complete write the file holds the payload. *)
Lemma process_attachment_file :
  fs_result env (fs_ops w) = IoOk ->
  files (snd result) !! path = Some data.
Proof.
  intros E0. subst path. attachment_cases; try congruence;
    rewrite ?process_pdf_file, ?Hf3, ?Hf2; auto.
Qed.

(** Outside Docker mode a stored path comes with one new record;
    in Docker mode the log is left alone. *)
Lemma process_attachment_log p :
  fst result = Some p ->
  json_log (snd result)
  = if docker_mode cfg then json_log w
    else json_log w ++ [info (now env (ticks w))].
Proof.
  subst info path. attachment_cases; intros [= <-];
    rewrite ?process_pdf_json, ?Hj3, ?Hj2, ?Hj1 by reflexivity;
    subst; rewrite ?Ht1; reflexivity.
Qed.
End Attachment.
Section Message.
Variables (sender subject timestamp : string).

Lemma process_part_extends has w part :
  exists evs,
    extends w (snd (process_part cfg env sender subject timestamp
                                 (has, w) part)) evs
    /\ attempted_writes evs = expected_writes cfg env sender timestamp part
    /\ stores evs = [].
Proof.
  unfold process_part, expected_writes, qualifies.
  destruct (is_attachment part); cbn [andb];
    [|exists []; split; [apply extends_refl|split; reflexivity]].
  destruct (part_filename part) as [[|c f]|];
    [exists []; split; [apply extends_refl|split; reflexivity]| |
     exists []; split; [apply extends_refl|split; reflexivity]].
  destruct (payload part) as [[|b bs]|];
    [exists []; split; [apply extends_refl|split; reflexivity]| |
     exists []; split; [apply extends_refl|split; reflexivity]].
  cbn [andb snd]. apply process_attachment_extends.
Qed.

(** A part that does not qualify leaves the world as it is. *)
Lemma process_part_skip has w part :
  qualifies part = false ->
  snd (process_part cfg env sender subject timestamp (has, w) part) = w.
Proof.
  unfold process_part, qualifies.
  destruct (is_attachment part); [|reflexivity].
  destruct (part_filename part) as [[|c f]|]; [reflexivity| |reflexivity].
  destruct (payload part) as [[|b bs]|]; [reflexivity| |reflexivity].
  discriminate.
Qed.

Lemma parts_extends parts : forall has w,
  exists evs,
    extends w (snd (fold_left (process_part cfg env sender subject timestamp)
                              parts (has, w))) evs
    /\ attempted_writes evs
       = flat_map (expected_writes cfg env sender timestamp) parts
    /\ stores evs = [].
Proof.
  induction parts as [|part parts IH]; intros has w.
  - exists []. split; [apply extends_refl|split; reflexivity].
  - destruct (process_part_extends has w part) as (e1 & H1 & Hw1 & Hs1).
    cbn [fold_left flat_map].
    destruct (process_part cfg env sender subject timestamp (has, w) part)
      as [has' w'].
    destruct (IH has' w') as (e2 & H2 & Hw2 & Hs2).
    exists (e1 ++ e2). split; [|split].
    + eapply extends_trans; eassumption.
    + now rewrite attempted_writes_app, Hw1, Hw2.
    + now rewrite stores_app, Hs1, Hs2.
Qed.
End Message.

Section Sweep.
Variable srv : Server.

Lemma process_email_extends email_id w :
  exists evs,
    extends w (process_email cfg env srv email_id w) (EvFetch email_id :: evs)
    /\ attempted_writes evs = message_writes cfg env srv email_id w
    /\ stores evs = [].
Proof.
  unfold process_email, message_writes.
  destruct (srv_fetch srv email_id) as [message|];
    [|exists []; split; [reflexivity|split; reflexivity]].
  unfold read_clock. cbn [ticks emit].
  match goal with
  | |- context [fold_left ?f ?ps (?h, ?w0)] =>
      destruct (parts_extends
                  (decode_header_value env (msg_from message))
                  (decode_header_value env (msg_subject message))
                  (stamp (now env (ticks w))) ps h w0)
        as (evs & He & Hw & Hs);
      destruct (fold_left f ps (h, w0)) as [has w']
  end.
  unfold extends in *. simpl in He.
  destruct has.
  - exists evs. rewrite He, <- app_assoc. auto.
  - exists (evs ++ [EvNoAttachments]). simpl.
    rewrite He, <- !app_assoc, attempted_writes_app, stores_app, Hw, Hs.
    simpl. rewrite !app_nil_r. auto.
Qed.

Lemma sweep_extends ids : forall w,
  exists evs, extends w (sweep cfg env srv ids w) evs.
Proof.
  induction ids as [|email_id rest IH]; intros w.
  - exists []. apply extends_refl.
  - cbn [sweep].
    destruct (process_email_extends email_id w) as (e1 & H1 & _).
    destruct (srv_store srv email_id).
    + destruct (IH (emit (EvStore email_id)
                         (process_email cfg env srv email_id w)))
        as (e2 & H2).
      eexists. eapply extends_trans; [|exact H2].
      eapply extends_trans; [exact H1|apply extends_emit].
    + eexists. eapply extends_trans; [exact H1|apply extends_emit].
Qed.

(** One turn of the loop: the fetch, the write attempts of the
    message, then its [store]. *)
Lemma sweep_head email_id rest w :
  exists evs tail,
    trace (sweep cfg env srv (email_id :: rest) w)
    = trace w ++ EvFetch email_id :: evs ++ EvStore email_id :: tail
    /\ stores evs = []
    /\ attempted_writes evs = message_writes cfg env srv email_id w.
Proof.
  cbn [sweep].
  destruct (process_email_extends email_id w) as (evs & H1 & Hw & Hs).
  exists evs.
  destruct (srv_store srv email_id).
  - destruct (sweep_extends rest
                (emit (EvStore email_id)
                      (process_email cfg env srv email_id w)))
      as (tail & H2).
    exists tail. split; [|auto].
    unfold extends in *. rewrite H2. simpl. rewrite H1.
    rewrite <- !app_assoc. reflexivity.
  - exists []. split; [|auto].
    simpl. unfold extends in H1. rewrite H1.
    rewrite <- !app_assoc. reflexivity.
Qed.
End Sweep.
End WithEnv.

End PipelineFacts.

(** ** Claims about the pipeline *)
Module PipelineSpec.
Import PyStr Sanitizer Pipeline Samples PipelineFacts.

(** C1, as the code has it.  In every sweep ([_process_new_messages],
    [_poll_once], [start]) the [store] that marks a message seen comes
    after the fetch of the message and after one write attempt for each
    of its qualifying attachments, and no other [store] comes between;
    it is issued whatever the outcome of those attempts. *)
Theorem seen_after_write_attempts
        (cfg : Config) (env : Env) (srv : Server)
        (email_id : string) (rest : list string) (w : World) :
  exists evs tail,
    trace (sweep cfg env srv (email_id :: rest) w)
    = trace w ++ EvFetch email_id :: evs ++ EvStore email_id :: tail
    /\ stores evs = []
    /\ attempted_writes evs = message_writes cfg env srv email_id w.
Proof. apply sweep_head. Qed.

(** C1 as stated fails: the disk is full, the write of the only
    attachment stops after one byte, nothing is logged, and the message
    is marked seen all the same. *)
Lemma seen_despite_failed_write :
  let w := process_new_messages local_cfg full_disk_env
             (mailbox (message_with [report_part])) true empty_world in
  trace w = [EvSelect; EvSearch; EvFetch "1";
             EvWrite report_path report_bytes (IoWriteFailed 1);
             EvStore "1"]
  /\ files w !! report_path = Some [Byte.x25]
  /\ json_log w = [].
Proof. vm_compute. auto. Qed.

(** C7.  A part that is not an attachment with a non-empty file name
    and a non-empty payload changes nothing: no file, no record, no
    event.  A part without file name is such a part, and the message
    that holds it is marked seen like any other. *)
Theorem part_processed_only_if_qualifies
        (cfg : Config) (env : Env) (srv : Server)
        (sender subject timestamp : string) (has : bool) (w : World)
        (part : Part) (email_id : string) (rest : list string) :
  (qualifies part = false ->
   snd (process_part cfg env sender subject timestamp (has, w) part) = w)
  /\ (part_filename part = None -> qualifies part = false)
  /\ (exists evs tail,
         trace (sweep cfg env srv (email_id :: rest) w)
         = trace w ++ EvFetch email_id :: evs ++ EvStore email_id :: tail).
Proof.
  split; [apply process_part_skip|]. split.
  - unfold qualifies. intros ->. now rewrite andb_false_r.
  - destruct (sweep_head cfg env srv email_id rest w) as (evs & tail & H & _).
    eauto.
Qed.

Lemma part_processed_only_if_qualifies_witness :
  snd (process_part local_cfg calm_env "Jane Doe <jane@ex.com>"
                    "Quarterly report" "20240101_120000"
                    (false, empty_world) nameless_part) = empty_world
  /\ qualifies nameless_part = false
  /\ trace (sweep local_cfg calm_env (mailbox (message_with [nameless_part]))
                  ["1"] empty_world)
     = [EvFetch "1"; EvStore "1"].
Proof.
  destruct (part_processed_only_if_qualifies local_cfg calm_env
              (mailbox (message_with [nameless_part]))
              "Jane Doe <jane@ex.com>" "Quarterly report" "20240101_120000"
              false empty_world nameless_part "1" [])
    as (Hskip & Hq & _).
  split; [apply Hskip, Hq; reflexivity|].
  split; [apply Hq; reflexivity|].
  reflexivity.
Defined.

(** C8, as the code has it.  When [_process_attachment] returns a
    stored path, the file at that path holds the payload; outside
    Docker mode exactly one record has been appended to the metadata
    log, and its [file_size] is the byte length of that file; in Docker
    mode nothing is appended to the metadata log. *)
Theorem saved_attachment_record
        (cfg : Config) (env : Env) (attachment_data : bytes)
        (filename sender subject timestamp : string) (w : World) (p : string) :
  let result := process_attachment cfg env attachment_data filename sender
                                   subject timestamp w in
  fst result = Some p ->
  files (snd result) !! p = Some attachment_data
  /\ if docker_mode cfg then json_log (snd result) = json_log w
     else exists r,
         json_log (snd result) = json_log w ++ [r]
         /\ file_size r = Z.of_nat (length attachment_data)
         /\ file_path r = p
         /\ original_filename r = filename.
Proof.
  intros result Hp. subst result.
  pose proof (process_attachment_saved cfg env _ _ _ _ _ _ _ Hp) as [-> Hok].
  split; [now apply process_attachment_file|].
  rewrite (process_attachment_log cfg env _ _ _ _ _ _ _ Hp).
  destruct (docker_mode cfg); [reflexivity|].
  eexists. split; [reflexivity|]. auto.
Qed.

Lemma saved_attachment_record_witness :
  let result := process_attachment local_cfg calm_env report_bytes
                  "Report (Final).PDF" "Jane Doe <jane@ex.com>"
                  "Quarterly report" "20240101_120000" empty_world in
  files (snd result) !! report_path = Some report_bytes
  /\ exists r, json_log (snd result) = [r] /\ file_size r = 4%Z.
Proof.
  destruct (saved_attachment_record local_cfg calm_env report_bytes
              "Report (Final).PDF" "Jane Doe <jane@ex.com>"
              "Quarterly report" "20240101_120000" empty_world report_path
              eq_refl) as [Hfile (r & Hlog & Hsize & _)].
  split; [exact Hfile|]. exists r. split; [exact Hlog|exact Hsize].
Defined.

(** C8 as stated fails: in Docker mode the attachment is saved and the
    metadata log stays empty. *)
Lemma docker_mode_appends_no_record :
  let result := process_attachment docker_cfg calm_env report_bytes
                  "Report (Final).PDF" "Jane Doe <jane@ex.com>"
                  "Quarterly report" "20240101_120000" empty_world in
  fst result
  = Some "/app/attachments/jane_ex_com_20240101_120000_Report__Final_.pdf"
  /\ files (snd result)
     !! "/app/attachments/jane_ex_com_20240101_120000_Report__Final_.pdf"
     = Some report_bytes
  /\ json_log (snd result) = [].
Proof. vm_compute. auto. Qed.

(** C9.  The timestamp of the stored names is read once per message:
    every write of the message goes to a name built from the clock
    reading taken on entry.  Two qualifying parts of one message whose
    decoded file names are equal therefore go to one path, and after
    the second write the file holds the second payload. *)
Theorem one_timestamp_per_message (cfg : Config) (env : Env) :
  (forall (srv : Server) (email_id : string) (w : World),
      exists evs,
        trace (process_email cfg env srv email_id w)
        = trace w ++ EvFetch email_id :: evs
        /\ attempted_writes evs = message_writes cfg env srv email_id w)
  /\ (forall (sender subject timestamp : string) (has : bool) (w : World)
             (p1 p2 : Part) (f1 f2 : string) (d1 d2 : bytes),
         qualifies p1 = true -> qualifies p2 = true ->
         part_filename p1 = Some f1 -> part_filename p2 = Some f2 ->
         payload p1 = Some d1 -> payload p2 = Some d2 ->
         decode_header_value env f1 = decode_header_value env f2 ->
         let path := path_join (attachments_dir cfg)
                       (sanitize_filename (decode_header_value env f1)
                                          sender timestamp) in
         let st1 := process_part cfg env sender subject timestamp (has, w) p1 in
         let st2 := process_part cfg env sender subject timestamp st1 p2 in
         fs_result env (fs_ops w) = IoOk ->
         fs_result env (fs_ops (snd st1)) = IoOk ->
         expected_writes cfg env sender timestamp p1 = [(path, d1)]
         /\ expected_writes cfg env sender timestamp p2 = [(path, d2)]
         /\ files (snd st1) !! path = Some d1
         /\ files (snd st2) !! path = Some d2).
Proof.
  split.
  - intros srv email_id w.
    destruct (process_email_extends cfg env srv email_id w)
      as (evs & He & Hw & _).
    exists evs. auto.
  - intros sender subject timestamp has w p1 p2 f1 f2 d1 d2
           Hq1 Hq2 Hf1 Hf2 Hd1 Hd2 Hdec path st1 st2 Hok1 Hok2.
    subst st2 st1 path.
    unfold expected_writes. rewrite Hq1, Hq2, Hf1, Hf2, Hd1, Hd2, <- Hdec.
    split; [reflexivity|]. split; [reflexivity|].
    unfold qualifies in Hq1, Hq2. rewrite Hf1, Hd1 in Hq1.
    rewrite Hf2, Hd2 in Hq2.
    revert Hok2. unfold process_part.
    destruct (is_attachment p1); [|discriminate].
    destruct (is_attachment p2); [|discriminate].
    rewrite Hf1, Hf2, Hd1, Hd2.
    destruct f1 as [|c1 f1]; [discriminate|].
    destruct f2 as [|c2 f2]; [discriminate|].
    destruct d1 as [|b1 d1]; [discriminate|].
    destruct d2 as [|b2 d2]; [discriminate|].
    cbn [snd]. intros Hok2. split.
    + now apply process_attachment_file.
    + rewrite <- Hdec. apply process_attachment_file. exact Hok2.
Qed.

Lemma one_timestamp_per_message_witness :
  let st1 := process_part local_cfg calm_env "Jane Doe <jane@ex.com>"
               "Quarterly report" "20240101_120000" (false, empty_world)
               report_part in
  let st2 := process_part local_cfg calm_env "Jane Doe <jane@ex.com>"
               "Quarterly report" "20240101_120000" st1 draft_part in
  files (snd st1) !! report_path = Some report_bytes
  /\ files (snd st2) !! report_path = Some draft_bytes.
Proof.
  destruct (one_timestamp_per_message local_cfg calm_env) as [_ H].
  destruct (H "Jane Doe <jane@ex.com>" "Quarterly report" "20240101_120000"
              false empty_world report_part draft_part
              "Report (Final).PDF" "Report (Final).PDF"
              report_bytes draft_bytes
              eq_refl eq_refl eq_refl eq_refl eq_refl eq_refl eq_refl
              eq_refl eq_refl) as (_ & _ & H1 & H2).
  split; [exact H1|exact H2].
Defined.

End PipelineSpec.

(** ** Claims about the monitor *)
Module MonitorSpec.
Import Pipeline Samples Monitor.

Section WithEnv.
Variable cfg : Config.
Variable env : Env.

Lemma run_app a b st :
  run cfg env st (a ++ b)
  = match run cfg env st a with
    | Next st' => run cfg env st' b
    | o => o
    end.
Proof.
  revert st. induction a as [|i a IH]; intros st; simpl; [reflexivity|].
  destruct (step cfg env st i); auto.
Qed.

Lemma visited_app a b st st' :
  run cfg env st a = Next st' ->
  visited cfg env st (a ++ b) = visited cfg env st a ++ visited cfg env st' b.
Proof.
  revert st. induction a as [|i a IH]; intros st; simpl.
  - now intros [= ->].
  - destruct (step cfg env st i) as [st1| |]; try discriminate.
    intros H. now rewrite (IH _ H).
Qed.

(** Split a step along the tests of the code. *)
Ltac step_cases :=
  repeat match goal with
         | |- context [if ?b then _ else _] => destruct b eqn:?
         | |- context [match ?x with EmptyString => _ | String _ _ => _ end] =>
             destruct x eqn:?
         | |- context [match ?x with Some _ => _ | None => _ end] =>
             destruct x eqn:?
         end.

(** An input that is no signal never ends a running monitor, and
    leaves it running. *)
Lemma step_keeps_running st i :
  loc st <> AtStartConnect -> running st = true -> is_signal i = false ->
  match step cfg env st i with
  | Next st' => loc st' <> AtStartConnect /\ running st' = true
  | Halt _ => False
  | Stuck => True
  end.
Proof.
  destruct st as [l r m w]. cbn [loc running]. intros Hl -> Hi.
  destruct i; try discriminate Hi;
    destruct l; try exact I; try (exfalso; apply Hl; reflexivity);
    unfold step, loop_top, wait_loop, goto, with_world, with_mail;
    cbn [loc running mail world];
    step_cases; cbn [loc running mail world];
    try exact I; try (split; [discriminate|reflexivity]).
Qed.

(** The step function is defined exactly on the inputs a program
    point expects. *)
Lemma step_stuck_iff st i :
  step cfg env st i = Stuck <-> expects (loc st) i = false.
Proof.
  destruct st as [l r m w]. cbn [loc].
  destruct i, l; cbn [expects];
    unfold step, loop_top, wait_loop, goto, with_world, with_mail;
    cbn [loc running mail world];
    step_cases; split; intros H; try reflexivity; try discriminate H.
Qed.


End WithEnv.


(** C2, as the code has it.  Once [start] has made its first
    connection, no input other than a shutdown signal ends the process,
    whatever fails: commands that raise, lines that cannot be read,
    connections that cannot be made, a mailbox, a disk or an analysis
    that fails during a sweep.  A connection that fails is tried
    again: after a sleep of 30 seconds when it is the attempt at the
    top of the loop (line 586), after a sleep of 10 seconds when it is
    the reconnection of the fallback (line 679). *)
Theorem only_signals_end_the_monitor (cfg : Config) (env : Env) :
  (forall (inputs : list Input) (st : State) (w : World),
      loc st <> AtStartConnect -> running st = true ->
      forallb (fun i => negb (is_signal i)) inputs = true ->
      run cfg env st inputs <> Halt w)
  /\ (forall w : World,
         run cfg env {| loc := AtConnect; running := true; mail := false;
                        world := w |} [InConnect false; InWake]
         = Next {| loc := AtConnect; running := true; mail := false;
                   world := emit (EvSleep 30) (emit (EvConnect false) w) |})
  /\ (forall (w : World) (m : bool),
         run cfg env {| loc := AtFallbackConnect; running := true; mail := m;
                        world := w |} [InConnect false; InWake]
         = Next {| loc := AtConnect; running := true; mail := false;
                   world := emit (EvSleep 10) (emit (EvConnect false) w) |}).
Proof.
  split; [|split; reflexivity].
  induction inputs as [|i inputs IH]; intros st w Hl Hr Hi; simpl;
    [discriminate|].
  simpl in Hi. apply andb_true_iff in Hi as [Hi Hrest].
  apply negb_true_iff in Hi.
  pose proof (step_keeps_running cfg env st i Hl Hr Hi) as Hs.
  destruct (step cfg env st i) as [st'| |]; [|contradiction|discriminate].
  destruct Hs as [Hl' Hr']. now apply IH.
Qed.

Lemma only_signals_end_the_monitor_witness :
  run local_cfg calm_env connected bad_day <> Halt empty_world.
Proof.
  destruct (only_signals_end_the_monitor local_cfg calm_env) as [H _].
  apply H; [discriminate|reflexivity|reflexivity].
Defined.

(** C2 as stated fails: when the first connection of [start] fails the
    watcher logs "Exiting" and returns; the process ends without a
    signal and without another attempt. *)
Lemma start_exits_on_connection_failure :
  step local_cfg calm_env (initial empty_world) (InConnect false)
  = Halt (emit EvReturn (emit (EvConnect false) empty_world))
  /\ is_signal (InConnect false) = false.
Proof. split; reflexivity. Qed.

(** C3, at a silent server.  The idle session began at time 0 and
    the monitor is blocked in the [readline] of line 620, which has
    no timeout.  No reading of the clock reaches it there, however
    late: only a line, a read that fails or a signal moves it on, so
    that the 1740 seconds pass without a [DONE].  When the first line
    comes, 5000 seconds into the session, the test of line 646 is
    reached and the refresh begins. *)
Theorem silent_wait_is_not_refreshed :
  (forall t : Q, step local_cfg calm_env waiting (InTime t) = Stuck)
  /\ (forall i : Input,
         expects (loc waiting) i = true ->
         (exists line, i = InLine line)
         \/ (exists signum, i = InSignal signum))
  /\ refresh_due 5000 0 = true
  /\ run local_cfg calm_env waiting
         [InLine (Some "* OK Still here"); InTime 5000; InDone true]
     = Next {| loc := AtAckRefresh "A001"; running := true; mail := true;
               world := emit (EvSend done_command) empty_world |}.
Proof.
  split; [reflexivity|]. split; [|split; reflexivity].
  intros [signum|ok|ok|tag|line|t| |srv]; try discriminate; eauto.
Qed.



(** C4, as the code has it.  A shutdown signal that arrives while the
    monitor waits for push lines runs the handler: the running flag is
    cleared, [logout] is called on the connection when there is one,
    and the process exits with status 0.  [DONE] is not sent and no
    acknowledgement is read. *)
Theorem signal_while_waiting_exits
        (cfg : Config) (env : Env) (tag : string) (t0 : Q)
        (r m : bool) (w : World) (signum : Z) :
  step cfg env {| loc := AtWait tag t0; running := r; mail := m; world := w |}
       (InSignal signum)
  = Halt (emit (EvExit 0) (if m then emit EvLogout w else w)).
Proof. reflexivity. Qed.

(** C4 as stated fails: SIGTERM during the wait gives a logout and the
    exit, and no [DONE] before them. *)
Lemma shutdown_skips_idle_termination :
  exists w,
    step local_cfg calm_env waiting (InSignal 15) = Halt w
    /\ trace w = [EvLogout; EvExit 0]
    /\ ~ In (EvSend done_command) (trace w).
Proof.
  eexists. split; [reflexivity|]. split; [reflexivity|].
  simpl. intros [H|[H|[]]]; discriminate H.
Qed.

End MonitorSpec.

(** ** Further properties of [_sanitize_filename] *)
Module SanitizerMore.
Import PyStr Re Sanitizer SenderForms.
Import PyStrFacts ReFacts SanitizerFacts SplitextFacts SanitizerSpec.
Local Open Scope char_scope.

Lemma word_dash_not_slash c :
  implb (negb (not_word_dash c)) (is_not "/" c) = true.
Proof. each_char c. Qed.

Lemma clean_sender_no_slash sender :
  sall (is_not "/") (clean_sender_of sender) = true.
Proof.
  unfold clean_sender_of. apply (sall_sub_class (fun _ => true)).
  - intros c _ Hp. apply (implb_elim _ _ (word_dash_not_slash c)).
    now rewrite Hp.
  - reflexivity.
  - generalize (sub_class angle_at_dot "_" (lower (email_addr_of sender))).
    induction s as [|c s IH]; simpl; auto.
Qed.

Lemma sanitize_no_slash filename sender timestamp :
  sall (is_not "/") timestamp = true ->
  sall (is_not "/") (sanitize_filename filename sender timestamp) = true.
Proof.
  intros Ht. unfold sanitize_filename.
  pose proof (splitext_ext_shape filename) as Hshape.
  destruct (splitext filename) as [name ext]. simpl in Hshape.
  rewrite !sall_app, clean_sender_no_slash, Ht, clean_name_no_slash.
  simpl. destruct Hshape as [->|(e & -> & _ & He)]; [reflexivity|].
  apply (lower_is_not "/" (String "." e)); [apply chr_lower_eqb_slash|].
  simpl. exact He.
Qed.

(** X1.  The stored name holds no path separator as long as the
    timestamp holds none, whatever the sender and the original name:
    joined to the attachments directory it names a file directly
    inside that directory. *)
Theorem sanitize_filename_no_separator (filename sender timestamp : string) :
  sall (is_not "/") timestamp = true ->
  sall (is_not "/") (sanitize_filename filename sender timestamp) = true.
Proof. apply sanitize_no_slash. Qed.

Lemma sanitize_filename_no_separator_witness :
  sall (is_not "/")
       (sanitize_filename "../../etc/passwd" "Jane Doe <jane@ex.com>"
                          "20240101_120000") = true.
Proof.
  apply (sanitize_filename_no_separator "../../etc/passwd"
           "Jane Doe <jane@ex.com>" "20240101_120000").
  reflexivity.
Defined.

(** *** What the address pattern finds *)

Lemma plain_not_at c : plain_char c = true -> Ascii.eqb c "@" = false.
Proof.
  unfold plain_char, is_char. intros [H _]%andb_true_iff.
  now apply negb_true_iff in H.
Qed.

Lemma plain_not_lt c : plain_char c = true -> Ascii.eqb c "<" = false.
Proof.
  unfold plain_char, is_char. intros [_ H]%andb_true_iff.
  now apply negb_true_iff in H.
Qed.

Lemma broken_not_at d : not_space_angle d = false -> Ascii.eqb d "@" = false.
Proof.
  destruct (Ascii.eqb d "@") eqn:E; [|reflexivity].
  apply Ascii.eqb_eq in E as ->. discriminate.
Qed.

(** The second alternative finds nothing in a stretch without [@]
    that a break follows. *)
Lemma token_fails_on_plain {R} (k : string -> option R) x rest :
  sall plain_char x = true -> starts_broken rest = true ->
  plus_greedy not_space_angle (x +:+ rest)
    (fun s' => match s' with
               | String c s'' => if Ascii.eqb c "@" then k s'' else None
               | EmptyString => None
               end) = None.
Proof.
  intros Hx Hrest. induction x as [|c x IH]; ssimpl.
  - destruct rest as [|d rest]; [reflexivity|]. simpl in *.
    now apply negb_true_iff in Hrest as ->.
  - simpl in Hx. apply andb_true_iff in Hx as [Hc Hx].
    destruct (not_space_angle c); [|reflexivity].
    rewrite (IH Hx).
    destruct x as [|c' x]; ssimpl.
    + destruct rest as [|d rest]; [reflexivity|]. simpl in Hrest.
      apply negb_true_iff in Hrest. now rewrite (broken_not_at _ Hrest).
    + simpl in Hx. apply andb_true_iff in Hx as [Hc' _].
      now rewrite (plain_not_at _ Hc').
Qed.

Lemma email_re_fails_on_plain x rest :
  sall plain_char x = true -> starts_broken rest = true ->
  x <> EmptyString ->
  rmatch email_re (x +:+ rest) [] (fun _ m => Some m) = None.
Proof.
  intros Hx Hrest Hne. unfold email_re. cbn [rmatch].
  destruct x as [|c x]; [contradiction|].
  pose proof Hx as Hx'. simpl in Hx'. apply andb_true_iff in Hx' as [Hc _].
  rewrite append_cons. rewrite (plain_not_lt _ Hc).
  rewrite <- append_cons.
  apply (token_fails_on_plain _ (String c x) rest Hx Hrest).
Qed.

(** [search] passes over a stretch without [@] and [<] that a break
    follows. *)
Lemma search_skips_plain x rest :
  sall plain_char x = true -> starts_broken rest = true ->
  search email_re (x +:+ rest) = search email_re rest.
Proof.
  intros Hx Hrest. induction x as [|c x IH]; [reflexivity|].
  rewrite append_cons. cbn [search]. rewrite <- append_cons.
  rewrite (email_re_fails_on_plain _ _ Hx Hrest); [|discriminate].
  simpl in Hx. apply andb_true_iff in Hx as [_ Hx]. exact (IH Hx).
Qed.

Lemma search_empty : search email_re EmptyString = None.
Proof. reflexivity. Qed.

(** X4.  A sender with neither [@] nor [<] holds no address: the raw
    sender string takes the place of the address. *)
Theorem sender_without_address (sender : string) :
  sall plain_char sender = true -> email_addr_of sender = sender.
Proof.
  intros H. unfold email_addr_of.
  rewrite <- (app_nil_r_s sender) at 1.
  now rewrite (search_skips_plain sender EmptyString H eq_refl), search_empty.
Qed.

Lemma sender_without_address_witness :
  email_addr_of "Mailer Daemon" = "Mailer Daemon"%string
  /\ clean_sender_of "Mailer Daemon" = "mailerdaemon"%string.
Proof.
  split; [apply (sender_without_address "Mailer Daemon")|]; reflexivity.
Defined.

(** The lazy group runs to the first [>]. *)
Lemma lazy_to_bracket {R} (k : string -> option R) a x post r :
  sall inner_char (String a x) = true ->
  (forall c s, Ascii.eqb c ">" = false -> k (String c s) = None) ->
  k (String ">" post) = Some r ->
  plus_lazy re_dot (String a x +:+ String ">" post) k = Some r.
Proof.
  intros Hx Hnone Hk. revert a Hx. induction x as [|b x IH]; intros a Hx.
  - ssimpl. simpl in Hx. rewrite andb_true_r in Hx.
    apply andb_true_iff in Hx as [-> _]. now rewrite Hk.
  - pose proof Hx as Hx'. simpl in Hx'.
    apply andb_true_iff in Hx' as [Ha Hbx].
    apply andb_true_iff in Ha as [Ha _].
    rewrite append_cons. cbn [plus_lazy]. rewrite Ha.
    rewrite append_cons.
    assert (Hb : Ascii.eqb b ">" = false).
    { simpl in Hbx. apply andb_true_iff in Hbx as [Hb _].
      apply andb_true_iff in Hb as [_ Hb]. unfold is_not in Hb.
      now apply negb_true_iff in Hb. }
    rewrite (Hnone _ _ Hb). rewrite <- append_cons. apply IH. exact Hbx.
Qed.

(** X2.  For a sender of the form [pre <addr> post], where [pre] holds
    neither [@] nor [<] and [addr] is not empty and holds neither [>]
    nor a line feed, the address extracted is exactly [addr]. *)
Theorem bracketed_address_extracted (pre addr post : string) :
  sall plain_char pre = true ->
  addr <> EmptyString -> sall inner_char addr = true ->
  email_addr_of (pre +:+ "<" +:+ addr +:+ ">" +:+ post) = addr.
Proof.
  intros Hpre Hne Haddr. unfold email_addr_of.
  rewrite !append_cons, !append_nil_l.
  rewrite (search_skips_plain pre (String "<" (addr +:+ String ">" post))
                              Hpre eq_refl).
  destruct addr as [|a x]; [contradiction|].
  cbn [search]. unfold email_re at 1. cbn [rmatch]. simpl Ascii.eqb.
  cbv iota.
  erewrite (lazy_to_bracket _ a x post _ Haddr);
    [|intros c s Hc; now rewrite Hc|rewrite Ascii.eqb_refl; reflexivity].
  rewrite length_app_s.
  replace (String.length (String a x) + String.length (String ">" post)
           - String.length (String ">" post))
    with (String.length (String a x)) by lia.
  rewrite substring_app_l. reflexivity.
Qed.

Lemma bracketed_address_extracted_witness :
  email_addr_of "Jane Doe <jane@ex.com>" = "jane@ex.com"%string.
Proof.
  apply (bracketed_address_extracted "Jane Doe " "jane@ex.com" EmptyString);
    [reflexivity|discriminate|reflexivity].
Defined.

(** *** A bare address *)

Lemma greedy_broken {R} (k : string -> option R) y :
  starts_broken y = true -> plus_greedy not_space_angle y k = None.
Proof.
  destruct y as [|d y]; [reflexivity|]. simpl.
  now intros ->%negb_true_iff.
Qed.

(** A greedy [+] with a continuation that accepts the rest after the
    token takes the whole token. *)
Lemma greedy_to_end {R} (k : string -> option R) x y r :
  x <> EmptyString -> sall not_space_angle x = true ->
  starts_broken y = true -> k y = Some r ->
  plus_greedy not_space_angle (x +:+ y) k = Some r.
Proof.
  intros Hne Hx Hy Hk. induction x as [|a x IH]; [contradiction|].
  simpl in Hx. apply andb_true_iff in Hx as [Ha Hx].
  rewrite append_cons. cbn [plus_greedy]. rewrite Ha.
  destruct x as [|b x].
  - rewrite append_nil_l, (greedy_broken k y Hy). exact Hk.
  - rewrite IH; [reflexivity|discriminate|exact Hx].
Qed.

Section Token.
Context {R : Type}.
Variable final : string -> option R.
Variables (y : string) (r : R).
Hypothesis Hy : starts_broken y = true.
Hypothesis Hfinal : final y = Some r.

(** What follows the first [+] of the second alternative. *)
Let after_user (s' : string) : option R :=
  match s' with
  | EmptyString => None
  | String c s'' =>
      if Ascii.eqb c "@" then plus_greedy not_space_angle s'' final
      else None
  end.

Lemma after_user_result x :
  sall not_space_angle x = true ->
  after_user (x +:+ y) = None \/ after_user (x +:+ y) = Some r.
Proof.
  intros Hx. destruct x as [|c x].
  - rewrite append_nil_l. left. destruct y as [|d y']; [reflexivity|].
    simpl in *. apply negb_true_iff in Hy.
    now rewrite (broken_not_at _ Hy).
  - rewrite append_cons. simpl. destruct (Ascii.eqb c "@"); [|now left].
    simpl in Hx. apply andb_true_iff in Hx as [_ Hx].
    destruct x as [|b x].
    + left. rewrite append_nil_l. now apply greedy_broken.
    + right. apply greedy_to_end; auto; discriminate.
Qed.

Lemma user_result x :
  sall not_space_angle x = true ->
  plus_greedy not_space_angle (x +:+ y) after_user = None
  \/ plus_greedy not_space_angle (x +:+ y) after_user = Some r.
Proof.
  induction x as [|c x IH]; intros Hx.
  - left. rewrite append_nil_l. now apply greedy_broken.
  - simpl in Hx. apply andb_true_iff in Hx as [Hc Hx].
    rewrite append_cons. cbn [plus_greedy]. rewrite Hc.
    destruct (IH Hx) as [->| ->]; [|now right].
    apply after_user_result, Hx.
Qed.

Lemma token_matches user host :
  user <> EmptyString -> host <> EmptyString ->
  sall not_space_angle user = true -> sall not_space_angle host = true ->
  plus_greedy not_space_angle (user +:+ String "@" (host +:+ y)) after_user
  = Some r.
Proof.
  intros Hu Hh Huser Hhost.
  assert (Hat : after_user (String "@" (host +:+ y)) = Some r).
  { simpl. apply greedy_to_end; auto. }
  assert (Hrun : sall not_space_angle (String "@" host) = true).
  { simpl. exact Hhost. }
  induction user as [|c user IH]; [contradiction|].
  simpl in Huser. apply andb_true_iff in Huser as [Hc Huser].
  rewrite append_cons. cbn [plus_greedy]. rewrite Hc.
  destruct user as [|c' user].
  - rewrite append_nil_l.
    destruct (user_result (String "@" host) Hrun) as [H|H];
      rewrite append_cons in H; rewrite H; [exact Hat|reflexivity].
  - rewrite IH; [reflexivity|discriminate|exact Huser].
Qed.
End Token.

Lemma token_not_lt c : not_space_angle c = true -> Ascii.eqb c "<" = false.
Proof.
  destruct (Ascii.eqb c "<") eqn:E; [|reflexivity].
  apply Ascii.eqb_eq in E as ->. discriminate.
Qed.

Lemma ends_broken_split c l :
  ends_broken (String c l) = true ->
  exists x d, String c l = x +:+ String d EmptyString
              /\ not_space_angle d = false.
Proof.
  revert c. induction l as [|c' l IH]; intros c H.
  - exists EmptyString, c. split; [reflexivity|].
    simpl in H. now apply negb_true_iff in H.
  - destruct (IH c' H) as (x & d & Hx & Hd).
    exists (String c x), d. rewrite append_cons, <- Hx. auto.
Qed.

(** [search] passes over a lead without [@] and [<] that ends with a
    break. *)
Lemma search_skips_lead lead s :
  sall plain_char lead = true -> ends_broken lead = true ->
  search email_re (lead +:+ s) = search email_re s.
Proof.
  intros Hplain Hend. destruct lead as [|c l]; [reflexivity|].
  destruct (ends_broken_split c l Hend) as (x & d & Hx & Hd).
  rewrite Hx in *. rewrite sall_app in Hplain.
  apply andb_true_iff in Hplain as [Hxp Hdp].
  simpl in Hdp. rewrite andb_true_r in Hdp.
  rewrite app_assoc_s, append_cons, append_nil_l.
  rewrite (search_skips_plain x (String d s) Hxp);
    [|simpl; now rewrite Hd].
  cbn [search]. unfold email_re at 1. cbn [rmatch].
  rewrite (plain_not_lt _ Hdp). cbn [plus_greedy]. now rewrite Hd.
Qed.

(** X3.  For a sender of the form [lead user@host rest], where [lead]
    holds neither [@] nor [<] and is empty or ends with a blank or
    [>], the token [user@host] holds no blank and no angle bracket,
    and [rest] is empty or starts with a blank or an angle bracket, the
    address extracted is the whole token. *)
Theorem bare_address_extracted (lead user host rest : string) :
  sall plain_char lead = true -> ends_broken lead = true ->
  user <> EmptyString -> host <> EmptyString ->
  sall not_space_angle user = true -> sall not_space_angle host = true ->
  starts_broken rest = true ->
  email_addr_of (lead +:+ user +:+ "@" +:+ host +:+ rest)
  = user +:+ "@" +:+ host.
Proof.
  intros Hlead Hend Hu Hh Huser Hhost Hrest. unfold email_addr_of.
  rewrite !append_cons, !append_nil_l.
  rewrite (search_skips_lead lead _ Hlead Hend).
  destruct user as [|u0 user]; [contradiction|].
  pose proof Huser as Hu0. simpl in Hu0.
  apply andb_true_iff in Hu0 as [Hu0 _].
  rewrite append_cons. cbn [search]. unfold email_re at 1. cbn [rmatch].
  rewrite (token_not_lt _ Hu0). rewrite <- (append_cons u0 user).
  let subject := constr:(String u0 user +:+ String "@" (host +:+ rest)) in
  rewrite (@token_matches caps
             (fun s3 => @Some caps [(2%nat, String.substring 0
                                        (String.length subject
                                         - String.length s3) subject)])
             rest _ Hrest eq_refl (String u0 user) host Hu Hh Huser Hhost).
  cbv beta. cbn [group_or group Nat.eqb].
  replace (String u0 user +:+ String "@" (host +:+ rest))
    with ((String u0 user +:+ String "@" host) +:+ rest)
    by (now rewrite app_assoc_s, append_cons).
  rewrite length_app_s.
  replace (String.length (String u0 user +:+ String "@" host)
           + String.length rest - String.length rest)
    with (String.length (String u0 user +:+ String "@" host)) by lia.
  now rewrite substring_app_l.
Qed.

Lemma bare_address_extracted_witness :
  email_addr_of "Jane Doe jane@ex.com (home)" = "jane@ex.com"%string.
Proof.
  apply (bare_address_extracted "Jane Doe " "jane" "ex.com" " (home)");
    try reflexivity; discriminate.
Defined.

End SanitizerMore.

(** ** Further properties of the pipeline *)
Module PipelineMore.
Import PyStr Sanitizer Pipeline Samples SweepForms.
Import PyStrFacts SplitextFacts PipelineFacts SanitizerMore.

Lemma fetches_app a b : fetches (a ++ b) = fetches a ++ fetches b.
Proof. apply flat_map_app. Qed.

Lemma appended_app a b : appended (a ++ b) = appended a ++ appended b.
Proof. apply flat_map_app. Qed.

Lemma touched_app a b : touched (a ++ b) = touched a ++ touched b.
Proof. apply flat_map_app. Qed.

Lemma described_app_l a b r : described a r -> described (a ++ b) r.
Proof.
  intros (data & Hin & Hsize). exists data. split; [|exact Hsize].
  rewrite attempted_writes_app. apply in_or_app. now left.
Qed.

Lemma described_app_r a b r : described b r -> described (a ++ b) r.
Proof.
  intros (data & Hin & Hsize). exists data. split; [|exact Hsize].
  rewrite attempted_writes_app. apply in_or_app. now right.
Qed.

Lemma footprint_refl w : footprint w w [].
Proof.
  unfold footprint. simpl. rewrite !app_nil_r. auto.
Qed.

Lemma footprint_trans w1 w2 w3 e1 e2 :
  footprint w1 w2 e1 -> footprint w2 w3 e2 -> footprint w1 w3 (e1 ++ e2).
Proof.
  intros (Ht1 & Hj1 & Hf1 & Hk1) (Ht2 & Hj2 & Hf2 & Hk2).
  unfold footprint. rewrite Ht2, Ht1, Hj2, Hj1, appended_app, touched_app.
  rewrite <- !app_assoc. repeat split.
  - intros p Hp. rewrite Hf2, Hf1; [reflexivity| |];
      intros H; apply Hp, in_or_app; auto.
  - auto.
Qed.

(** An event that opens no file and appends no record. *)
Lemma footprint_emit e w :
  touched [e] = [] -> appended [e] = [] -> footprint w (emit e w) [e].
Proof.
  intros Ht Ha. unfold footprint. rewrite Ht, Ha. simpl.
  rewrite app_nil_r. auto.
Qed.

Lemma store_bytes_keeps path data o w p :
  is_Some (files w !! p) -> is_Some (files (store_bytes path data o w) !! p).
Proof.
  intros H. destruct o; simpl; [|exact H|];
    (destruct (decide (path = p)) as [->|Hne];
     [rewrite lookup_insert_eq; eauto|now rewrite lookup_insert_ne]).
Qed.

Section WithEnv.
Variable cfg : Config.
Variable env : Env.

Lemma write_file_footprint path data w :
  footprint w (snd (write_file env path data w))
            [EvWrite path data (fst (write_file env path data w))].
Proof.
  unfold write_file, footprint. cbn [fst snd].
  destruct (fs_result env (fs_ops w)); simpl; repeat split; auto;
    try (now rewrite app_nil_r);
    try (intros p Hp; rewrite lookup_insert_ne; [reflexivity|tauto]);
    intros p Hp;
    (destruct (decide (path = p)) as [->|Hne];
     [rewrite lookup_insert_eq; eauto|now rewrite lookup_insert_ne]).
Qed.

Lemma append_record_footprint r w :
  footprint w (snd (append_record env r w))
            [EvAppend r (fst (append_record env r w))].
Proof.
  unfold append_record, footprint. cbn [fst snd].
  destruct (fs_result env (fs_ops w)); simpl; repeat split; auto;
    now rewrite app_nil_r.
Qed.

Lemma read_clock_footprint w : footprint w (snd (read_clock env w)) [].
Proof.
  unfold read_clock, footprint. simpl. rewrite !app_nil_r. auto.
Qed.

Lemma summary_name_no_slash name :
  sall (is_not "/"%char) name = true ->
  sall (is_not "/"%char) (path_stem name +:+ "_summary.txt") = true.
Proof.
  intros H. rewrite sall_app. apply andb_true_iff. split; [|reflexivity].
  unfold path_stem. destruct (_ && _)%bool; [|exact H].
  apply sall_substring, H.
Qed.

(** [_process_pdf] writes at most the analysis artefact, next to the
    attachment. *)
Lemma process_pdf_footprint parent name info w :
  exists evs,
    footprint w (process_pdf env parent name info w) evs
    /\ appended evs = [] /\ attempted_writes evs = []
    /\ fetches evs = [] /\ stores evs = []
    /\ Forall (inside_when (sall (is_not "/"%char) name = true) parent)
              (touched evs).
Proof.
  unfold process_pdf.
  destruct (pdf_summary env _ _ _) as [doc|];
    [|exists []; split; [apply footprint_refl|]; repeat split; constructor].
  exists [EvSummary (path_join parent (path_stem name +:+ "_summary.txt"))
                    (fs_result env (fs_ops w))].
  assert (Hin : inside_when (sall (is_not "/"%char) name = true) parent
                  (path_join parent (path_stem name +:+ "_summary.txt"))).
  { eexists. split; [reflexivity|]. apply summary_name_no_slash. }
  split; [|repeat split; try reflexivity;
           destruct (fs_result env (fs_ops w)); simpl; auto].
  unfold footprint.
  destruct (fs_result env (fs_ops w)); simpl; repeat split; auto;
    try (now rewrite app_nil_r);
    try (intros p Hp; rewrite lookup_insert_ne; [reflexivity|tauto]);
    intros p Hp;
    match goal with
    | |- context [<[?q := _]> _ !! p] =>
        destruct (decide (q = p)) as [->|Hne];
        [rewrite lookup_insert_eq; eauto|now rewrite lookup_insert_ne]
    end.
Qed.

(** Chain the footprints at hand. *)
Ltac chain :=
  repeat first [eassumption | eapply footprint_trans; [eassumption|]].

Lemma tidy_nil ok : tidy ok cfg [].
Proof. repeat split; constructor. Qed.

Lemma tidy_app ok a b : tidy ok cfg a -> tidy ok cfg b -> tidy ok cfg (a ++ b).
Proof.
  intros (Ha1 & Ha2 & Ha3) (Hb1 & Hb2 & Hb3). unfold tidy.
  rewrite touched_app, appended_app. repeat split.
  - apply Forall_app. auto.
  - apply Forall_app. split.
    + eapply List.Forall_impl; [|exact Ha2]. intros r. apply described_app_l.
    + eapply List.Forall_impl; [|exact Hb2]. intros r. apply described_app_r.
  - intros Hd. now rewrite (Ha3 Hd), (Hb3 Hd).
Qed.

(** An event of the mail session leaves the disk alone. *)
Lemma tidy_session ok e :
  touched [e] = [] -> appended [e] = [] -> tidy ok cfg [e].
Proof.
  intros Ht Ha. unfold tidy. rewrite Ht, Ha. repeat split; constructor.
Qed.

Lemma tidy_weaken (ok ok' : Prop) evs :
  (ok' -> ok) -> tidy ok cfg evs -> tidy ok' cfg evs.
Proof.
  intros Hok (H1 & H2 & H3). repeat split; auto.
  eapply List.Forall_impl; [|exact H1].
  intros p (name & Hp & Hn). exists name. auto.
Qed.

Section Attachment.
Variables (data : bytes) (filename sender subject timestamp : string).
Variable w : World.

(** [_process_attachment] opens for writing only the attachment and
    its analysis artefact, both in the attachments directory, and
    a record it appends describes the write it has just made. *)
Lemma process_attachment_footprint :
  exists evs,
    footprint w (snd (process_attachment cfg env data filename sender
                                         subject timestamp w)) evs
    /\ fetches evs = [] /\ stores evs = []
    /\ tidy (sall (is_not "/"%char) timestamp = true) cfg evs.
Proof.
  set (ok := sall (is_not "/"%char) timestamp = true).
  assert (Hname : ok -> sall (is_not "/"%char)
                             (sanitize_filename filename sender timestamp)
                        = true)
    by apply sanitize_no_slash.
  assert (Hin : inside_when ok (attachments_dir cfg)
                  (path_join (attachments_dir cfg)
                     (sanitize_filename filename sender timestamp)))
    by (eexists; eauto).
  assert (Hpdf : forall evs,
             Forall (inside_when
                       (sall (is_not "/"%char)
                             (sanitize_filename filename sender timestamp)
                        = true) (attachments_dir cfg)) evs ->
             Forall (inside_when ok (attachments_dir cfg)) evs).
  { intros evs. apply List.Forall_impl. intros p (name & Hp & Hn).
    exists name. auto. }
  unfold process_attachment.
  match goal with
  | |- context [write_file env ?p data w] =>
      pose proof (write_file_footprint p data w) as F1;
      destruct (write_file env p data w) as [o w1]
  end.
  cbn [fst snd] in F1. destruct o.
  - pose proof (read_clock_footprint w1) as F2.
    destruct (read_clock env w1) as [t w2]. cbn [fst snd] in F2.
    destruct (docker_mode cfg) eqn:Hdocker.
    + destruct (endswith (lower filename) ".pdf" && ENABLE_SUMMARIZATION cfg).
      * match goal with
        | |- context [process_pdf env ?p ?n ?i ?w0] =>
            destruct (process_pdf_footprint p n i w0)
              as (e3 & F3 & Ha3 & Hw3 & Hf3 & Hs3 & Hi3)
        end.
        eexists. split; [cbn [snd]; chain|]. unfold tidy.
        rewrite !fetches_app, !stores_app, !appended_app, !touched_app,
          Ha3, Hf3, Hs3. simpl. repeat split; auto.
      * eexists. split; [cbn [snd]; chain|].
        unfold tidy. simpl. repeat split; auto.
    + match goal with
      | |- context [append_record env ?r w2] =>
          pose proof (append_record_footprint r w2) as F3;
          destruct (append_record env r w2) as [o2 w3]
      end.
      cbn [fst snd] in F3. destruct o2.
      * assert (Hd : forall tail,
                   described
                     ([EvWrite (path_join (attachments_dir cfg)
                                  (sanitize_filename filename sender
                                                     timestamp))
                               data IoOk] ++ tail)
                     {| info_timestamp := iso t;
                        info_sender := sender;
                        info_subject := subject;
                        original_filename := filename;
                        saved_filename :=
                          sanitize_filename filename sender timestamp;
                        file_size := Z.of_nat (length data);
                        file_path :=
                          path_join (attachments_dir cfg)
                            (sanitize_filename filename sender timestamp)
                     |}).
        { intros tail. exists data. split; [|reflexivity].
          simpl. now left. }
        destruct (endswith (lower filename) ".pdf"
                  && ENABLE_SUMMARIZATION cfg).
        -- match goal with
           | |- context [process_pdf env ?p ?n ?i ?w0] =>
               destruct (process_pdf_footprint p n i w0)
                 as (e4 & F4 & Ha4 & Hw4 & Hf4 & Hs4 & Hi4)
           end.
           eexists. split; [cbn [snd]; chain|]. unfold tidy.
           rewrite !fetches_app, !stores_app, !appended_app,
             !touched_app, Ha4, Hf4, Hs4. simpl.
           repeat split; auto; try congruence.
           constructor; [|constructor]. apply Hd.
        -- eexists. split; [cbn [snd]; chain|].
           unfold tidy. simpl. repeat split; auto; try congruence.
           constructor; [|constructor]. apply (Hd [EvAppend _ IoOk]).
      * eexists. split; [cbn [snd]; chain|].
        unfold tidy. simpl. repeat split; auto.
      * eexists. split; [cbn [snd]; chain|].
        unfold tidy. simpl. repeat split; auto.
  - eexists. split; [cbn [snd]; chain|].
    unfold tidy. simpl. repeat split; auto.
  - eexists. split; [cbn [snd]; chain|].
    unfold tidy. simpl. repeat split; auto.
Qed.
End Attachment.

Section Message.
Variables (sender subject timestamp : string).

Lemma process_part_footprint has w part :
  exists evs,
    footprint w (snd (process_part cfg env sender subject timestamp
                                   (has, w) part)) evs
    /\ fetches evs = [] /\ stores evs = []
    /\ tidy (sall (is_not "/"%char) timestamp = true) cfg evs.
Proof.
  assert (Hnone : exists evs,
             footprint w w evs /\ fetches evs = [] /\ stores evs = []
             /\ tidy (sall (is_not "/"%char) timestamp = true) cfg evs).
  { exists []. split; [apply footprint_refl|].
    repeat split; constructor. }
  unfold process_part.
  destruct (is_attachment part); [|exact Hnone].
  destruct (part_filename part) as [[|c f]|]; try exact Hnone.
  destruct (payload part) as [[|b bs]|]; try exact Hnone.
  cbn [snd]. apply process_attachment_footprint.
Qed.

Lemma parts_footprint parts : forall has w,
  exists evs,
    footprint w (snd (fold_left (process_part cfg env sender subject
                                              timestamp)
                                parts (has, w))) evs
    /\ fetches evs = [] /\ stores evs = []
    /\ tidy (sall (is_not "/"%char) timestamp = true) cfg evs.
Proof.
  induction parts as [|part parts IH]; intros has w.
  - exists []. split; [apply footprint_refl|].
    repeat split; constructor.
  - destruct (process_part_footprint has w part)
      as (e1 & F1 & Hf1 & Hs1 & Ht1).
    cbn [fold_left].
    destruct (process_part cfg env sender subject timestamp (has, w) part)
      as [has' w'].
    destruct (IH has' w') as (e2 & F2 & Hf2 & Hs2 & Ht2).
    exists (e1 ++ e2). split; [chain|].
    rewrite fetches_app, stores_app, Hf1, Hf2, Hs1, Hs2.
    split; [reflexivity|]. split; [reflexivity|]. now apply tidy_app.
Qed.
End Message.

Section Sweep.
Variable srv : Server.

Lemma process_email_footprint email_id w :
  exists evs,
    footprint w (process_email cfg env srv email_id w) evs
    /\ fetches evs = [email_id] /\ stores evs = []
    /\ tidy (clock_ok env) cfg evs.
Proof.
  assert (F0 : footprint w (emit (EvFetch email_id) w) [EvFetch email_id])
    by now apply footprint_emit.
  assert (T0 : tidy (clock_ok env) cfg [EvFetch email_id])
    by now apply tidy_session.
  unfold process_email.
  destruct (srv_fetch srv email_id) as [message|];
    [|exists [EvFetch email_id]; auto].
  pose proof (read_clock_footprint (emit (EvFetch email_id) w)) as F1.
  unfold read_clock in *. cbn [fst snd ticks emit] in *.
  match goal with
  | |- context [fold_left ?f ?ps (?h, ?w0)] =>
      destruct (parts_footprint
                  (decode_header_value env (msg_from message))
                  (decode_header_value env (msg_subject message))
                  (stamp (now env (ticks w))) ps h w0)
        as (e2 & F2 & Hf2 & Hs2 & Ht2);
      destruct (fold_left f ps (h, w0)) as [has w']
  end.
  cbn [snd] in F2.
  assert (Ht2' : tidy (clock_ok env) cfg e2).
  { eapply tidy_weaken; [|exact Ht2]. intros Hok. apply Hok. }
  destruct has.
  - exists ([EvFetch email_id] ++ [] ++ e2). split; [chain|].
    rewrite !fetches_app, !stores_app, Hf2, Hs2.
    split; [reflexivity|]. split; [reflexivity|].
    apply tidy_app; [exact T0|]. apply tidy_app; [apply tidy_nil|exact Ht2'].
  - exists ([EvFetch email_id] ++ [] ++ e2 ++ [EvNoAttachments]).
    split.
    + assert (F3 : footprint w' (emit EvNoAttachments w') [EvNoAttachments])
        by now apply footprint_emit.
      chain.
    + rewrite !fetches_app, !stores_app, Hf2, Hs2.
      split; [reflexivity|]. split; [reflexivity|].
      apply tidy_app; [exact T0|]. apply tidy_app; [apply tidy_nil|].
      apply tidy_app; [exact Ht2'|]. now apply tidy_session.
Qed.

Lemma sweep_footprint ids : forall w,
  exists evs,
    footprint w (sweep cfg env srv ids w) evs
    /\ fetches evs = reached srv ids /\ stores evs = reached srv ids
    /\ tidy (clock_ok env) cfg evs.
Proof.
  induction ids as [|email_id rest IH]; intros w.
  - exists []. split; [apply footprint_refl|].
    repeat split; constructor.
  - cbn [sweep reached].
    destruct (process_email_footprint email_id w)
      as (e1 & F1 & Hf1 & Hs1 & Ht1).
    set (w1 := process_email cfg env srv email_id w) in *.
    assert (F2 : footprint w1 (emit (EvStore email_id) w1)
                           [EvStore email_id])
      by now apply footprint_emit.
    assert (T2 : tidy (clock_ok env) cfg [EvStore email_id])
      by now apply tidy_session.
    destruct (srv_store srv email_id).
    + destruct (IH (emit (EvStore email_id) w1))
        as (e3 & F3 & Hf3 & Hs3 & Ht3).
      exists (e1 ++ [EvStore email_id] ++ e3). split; [chain|].
      rewrite !fetches_app, !stores_app, Hf1, Hs1, Hf3, Hs3.
      split; [reflexivity|]. split; [reflexivity|].
      apply tidy_app; [exact Ht1|]. now apply tidy_app.
    + exists (e1 ++ [EvStore email_id]). split; [chain|].
      rewrite !fetches_app, !stores_app, Hf1, Hs1.
      split; [reflexivity|]. split; [reflexivity|]. now apply tidy_app.
Qed.

(** [_process_new_messages] and [_poll_once] altogether. *)
Lemma process_new_messages_footprint mail w :
  exists evs,
    footprint w (process_new_messages cfg env srv mail w) evs
    /\ fetches evs = (if mail then swept srv else [])
    /\ stores evs = (if mail then swept srv else [])
    /\ tidy (clock_ok env) cfg evs.
Proof.
  unfold process_new_messages, swept.
  destruct mail; cbn [negb];
    [|exists []; split; [apply footprint_refl|];
      repeat split; constructor].
  assert (F1 : footprint w (emit EvSelect w) [EvSelect])
    by now apply footprint_emit.
  assert (T1 : tidy (clock_ok env) cfg [EvSelect]) by now apply tidy_session.
  destruct (srv_select srv); cbn [negb];
    [|exists [EvSelect]; auto].
  assert (F2 : footprint (emit EvSelect w) (emit EvSearch (emit EvSelect w))
                         [EvSearch])
    by now apply footprint_emit.
  assert (T2 : tidy (clock_ok env) cfg [EvSearch]) by now apply tidy_session.
  destruct (srv_search srv) as [ids|].
  - destruct (sweep_footprint ids (emit EvSearch (emit EvSelect w)))
      as (e3 & F3 & Hf3 & Hs3 & Ht3).
    exists ([EvSelect] ++ [EvSearch] ++ e3). split; [chain|].
    rewrite !fetches_app, !stores_app, Hf3, Hs3.
    split; [reflexivity|]. split; [reflexivity|].
    apply tidy_app; [exact T1|]. now apply tidy_app.
  - exists ([EvSelect] ++ [EvSearch]). split; [chain|].
    split; [reflexivity|]. split; [reflexivity|]. now apply tidy_app.
Qed.

(** The sweep of [start]. *)
Lemma start_sweep_footprint w :
  exists evs,
    footprint w (start_sweep cfg env srv w) evs
    /\ fetches evs = swept_at_start srv
    /\ stores evs = swept_at_start srv
    /\ tidy (clock_ok env) cfg evs.
Proof.
  unfold start_sweep, swept_at_start.
  assert (F1 : footprint w (emit EvSearch w) [EvSearch])
    by now apply footprint_emit.
  assert (T1 : tidy (clock_ok env) cfg [EvSearch]) by now apply tidy_session.
  destruct (srv_search srv) as [ids|].
  - destruct (sweep_footprint ids (emit EvSearch w))
      as (e3 & F3 & Hf3 & Hs3 & Ht3).
    exists ([EvSearch] ++ e3). split; [chain|].
    rewrite !fetches_app, !stores_app, Hf3, Hs3.
    split; [reflexivity|]. split; [reflexivity|]. now apply tidy_app.
  - exists [EvSearch]. auto.
Qed.
End Sweep.

(** *** Healthy runs and failures of [_process_attachment] *)

Lemma process_attachment_ok data filename sender subject timestamp w :
  (forall n, fs_result env n = IoOk) ->
  fst (process_attachment cfg env data filename sender subject timestamp w)
  = Some (path_join (attachments_dir cfg)
                    (sanitize_filename filename sender timestamp)).
Proof.
  intros Hok. unfold process_attachment, write_file, read_clock,
                append_record.
  rewrite Hok. destruct (docker_mode cfg); [reflexivity|].
  cbn [fs_ops count_fs_op emit store_bytes set_files]. now rewrite Hok.
Qed.

(** The pairs of path and size of some records, and of some writes. *)
Let sizes_of_records (recs : list AttachmentRecord) : list (string * Z) :=
  map (fun r => (file_path r, file_size r)) recs.
Let sizes_of_writes (ws : list (string * bytes)) : list (string * Z) :=
  map (fun pd => (fst pd, Z.of_nat (length (snd pd)))) ws.

Lemma process_part_records sender subject timestamp has w part :
  docker_mode cfg = false -> (forall n, fs_result env n = IoOk) ->
  exists recs,
    json_log (snd (process_part cfg env sender subject timestamp
                                (has, w) part))
    = json_log w ++ recs
    /\ sizes_of_records recs
       = sizes_of_writes (expected_writes cfg env sender timestamp part).
Proof.
  intros Hdocker Hok.
  assert (Hnone : exists recs, json_log w = json_log w ++ recs
                               /\ sizes_of_records recs = sizes_of_writes [])
    by (exists []; rewrite app_nil_r; auto).
  unfold process_part, expected_writes, qualifies.
  destruct (is_attachment part); cbn [andb]; [|exact Hnone].
  destruct (part_filename part) as [[|c f]|]; try exact Hnone.
  destruct (payload part) as [[|b bs]|]; try exact Hnone.
  cbn [snd andb].
  pose proof (process_attachment_ok (b :: bs)
                (decode_header_value env (String c f)) sender subject
                timestamp w Hok) as Hsaved.
  rewrite (process_attachment_log cfg env _ _ _ _ _ _ _ Hsaved), Hdocker.
  eexists. split; reflexivity.
Qed.

Lemma parts_records sender subject timestamp parts :
  docker_mode cfg = false -> (forall n, fs_result env n = IoOk) ->
  forall has w,
  exists recs,
    json_log (snd (fold_left (process_part cfg env sender subject timestamp)
                             parts (has, w)))
    = json_log w ++ recs
    /\ sizes_of_records recs
       = sizes_of_writes
           (flat_map (expected_writes cfg env sender timestamp) parts).
Proof.
  intros Hdocker Hok. induction parts as [|part parts IH]; intros has w.
  - exists []. rewrite app_nil_r. auto.
  - destruct (process_part_records sender subject timestamp has w part
                Hdocker Hok) as (r1 & H1 & Hs1).
    cbn [fold_left flat_map].
    destruct (process_part cfg env sender subject timestamp (has, w) part)
      as [has' w'].
    destruct (IH has' w') as (r2 & H2 & Hs2). cbn [snd] in H1.
    exists (r1 ++ r2). split.
    + now rewrite H2, H1, app_assoc.
    + subst sizes_of_records sizes_of_writes. cbv beta in *.
      now rewrite !map_app, Hs1, Hs2.
Qed.
End WithEnv.

(** X5.  A sweep fetches and marks the unseen messages in the order
    of the search result, one [store] for each fetch, up to and
    including the first message whose [store] raises; the messages
    after that one are neither fetched nor marked, and none is when
    [select] or [search] raises or there is no connection.  This
    holds for [_process_new_messages], for [_poll_once], which does
    what [_process_new_messages] does on a connection, and for the
    sweep of [start], which searches without a [select] of its
    own. *)
Theorem sweep_reaches_in_order
        (cfg : Config) (env : Env) (srv : Server) (mail : bool) (w : World) :
  (exists evs,
      trace (process_new_messages cfg env srv mail w) = trace w ++ evs
      /\ fetches evs = (if mail then swept srv else [])
      /\ stores evs = fetches evs)
  /\ poll_once cfg env srv w = process_new_messages cfg env srv true w
  /\ (exists evs,
         trace (start_sweep cfg env srv w) = trace w ++ evs
         /\ fetches evs = swept_at_start srv
         /\ stores evs = fetches evs).
Proof.
  split; [|split; [reflexivity|]].
  - destruct (process_new_messages_footprint cfg env srv mail w)
      as (evs & (Ht & _) & Hf & Hs & _).
    exists evs. rewrite Hf, Hs. auto.
  - destruct (start_sweep_footprint cfg env srv w)
      as (evs & (Ht & _) & Hf & Hs & _).
    exists evs. rewrite Hf, Hs. auto.
Qed.

(** X6.  As long as no append has been torn, in the sweep or before
    it, a sweep only appends to the metadata log: the log afterwards is
    the log before followed by the records the trace shows as
    appended; each of them carries the path and the byte length of a
    write attempted in the same sweep.  Appends that fail without
    writing are among the cases.  In Docker mode the log is left as it
    was, whatever happens. *)
Theorem metadata_log_append_only
        (cfg : Config) (env : Env) (srv : Server) (mail : bool) (w : World) :
  torn_appends (trace (process_new_messages cfg env srv mail w)) = [] ->
  exists evs,
    trace (process_new_messages cfg env srv mail w) = trace w ++ evs
    /\ json_log (process_new_messages cfg env srv mail w)
       = json_log w ++ appended evs
    /\ Forall (described evs) (appended evs)
    /\ (docker_mode cfg = true ->
        json_log (process_new_messages cfg env srv mail w) = json_log w).
Proof.
  intros _.
  destruct (process_new_messages_footprint cfg env srv mail w)
    as (evs & (Ht & Hj & _) & _ & _ & (_ & Hd & Hdocker)).
  exists evs. repeat split; auto.
  intros H. now rewrite Hj, (Hdocker H), app_nil_r.
Qed.

Lemma metadata_log_append_only_witness :
  exists evs,
    trace (process_new_messages local_cfg one_refusal
             (mailbox (message_with [report_part; draft_part])) true
             empty_world) = [] ++ evs
    /\ json_log (process_new_messages local_cfg one_refusal
                   (mailbox (message_with [report_part; draft_part])) true
                   empty_world) = [] ++ appended evs
    /\ Forall (described evs) (appended evs)
    /\ (docker_mode local_cfg = true ->
        json_log (process_new_messages local_cfg one_refusal
                    (mailbox (message_with [report_part; draft_part])) true
                    empty_world) = []).
Proof.
  apply (metadata_log_append_only local_cfg one_refusal
           (mailbox (message_with [report_part; draft_part])) true
           empty_world).
  reflexivity.
Defined.

(** X7.  When the clock renders without path separator, a sweep
    changes, apart from the two logs the watcher keeps in [LOG_DIR],
    only files that lie directly inside the attachments directory,
    and it removes no file.  Of the two logs, the metadata log is
    written outside Docker mode only; in Docker mode it is left as it
    was. *)
Theorem files_stay_inside
        (cfg : Config) (env : Env) (srv : Server) (mail : bool) (w : World)
        (p : string) :
  clock_ok env ->
  (files (process_new_messages cfg env srv mail w) !! p <> files w !! p ->
   inside (attachments_dir cfg) p)
  /\ (is_Some (files w !! p) ->
      is_Some (files (process_new_messages cfg env srv mail w) !! p))
  /\ (docker_mode cfg = true ->
      json_log (process_new_messages cfg env srv mail w) = json_log w).
Proof.
  intros Hclock.
  destruct (process_new_messages_footprint cfg env srv mail w)
    as (evs & (_ & Hj & Hoff & Hkeep) & _ & _ & (Hin & _ & Hdocker)).
  split; [|split; [apply Hkeep|]].
  - intros Hne.
    destruct (in_dec String.string_dec p (touched evs)) as [Hp|Hp];
      [|now specialize (Hoff p Hp)].
    rewrite Forall_forall in Hin.
    assert (Hp' : p ∈ touched evs) by now apply list_elem_of_In.
    destruct (Hin p Hp') as (name & -> & Hname).
    exists name. auto.
  - intros H. now rewrite Hj, (Hdocker H), app_nil_r.
Qed.

Lemma calm_clock_ok : clock_ok calm_env.
Proof. intros [|n]; reflexivity. Defined.

Lemma files_stay_inside_witness :
  inside "data/attachments" report_path.
Proof.
  apply (files_stay_inside local_cfg calm_env
           (mailbox (message_with [report_part])) true empty_world
           report_path calm_clock_ok).
  intros H. vm_compute in H. discriminate H.
Defined.

(** X8.  Outside Docker mode and with every file operation
    succeeding, [_process_email] appends exactly one record for each
    qualifying part of the message, in the order of the parts, with
    the path written and the byte length of the payload. *)
Theorem one_record_per_attachment
        (cfg : Config) (env : Env) (srv : Server)
        (email_id : string) (w : World) :
  docker_mode cfg = false -> (forall n, fs_result env n = IoOk) ->
  exists recs,
    json_log (process_email cfg env srv email_id w) = json_log w ++ recs
    /\ map (fun r => (file_path r, file_size r)) recs
       = map (fun pd => (fst pd, Z.of_nat (length (snd pd))))
             (message_writes cfg env srv email_id w).
Proof.
  intros Hdocker Hok. unfold process_email, message_writes.
  destruct (srv_fetch srv email_id) as [message|];
    [|exists []; simpl; rewrite app_nil_r; auto].
  unfold read_clock. cbn [ticks emit].
  match goal with
  | |- context [fold_left ?f ?ps (?h, ?w0)] =>
      destruct (parts_records cfg env
                  (decode_header_value env (msg_from message))
                  (decode_header_value env (msg_subject message))
                  (stamp (now env (ticks w))) ps Hdocker Hok h w0)
        as (recs & Hj & Hs);
      destruct (fold_left f ps (h, w0)) as [has w']
  end.
  cbn [snd json_log] in Hj. exists recs. split; [|exact Hs].
  destruct has; simpl; exact Hj.
Qed.

Lemma one_record_per_attachment_witness :
  exists recs,
    json_log (process_email local_cfg calm_env
                (mailbox (message_with [report_part; nameless_part; draft_part]))
                "1" empty_world) = recs
    /\ map (fun r => (file_path r, file_size r)) recs
       = [(report_path, 4%Z); (report_path, 2%Z)].
Proof.
  destruct (one_record_per_attachment local_cfg calm_env
              (mailbox (message_with [report_part; nameless_part; draft_part]))
              "1" empty_world eq_refl (fun _ => eq_refl))
    as (recs & Hj & Hs).
  exists recs. split; [exact Hj|exact Hs].
Defined.

(** X9.  [_process_attachment] returns [None] exactly when the write
    of the attachment failed or, outside Docker mode, the append to
    the metadata log failed.  A call that returns [None] adds no
    record and writes no analysis; when it was the append that
    failed, the attachment is on disk in full all the same. *)
Theorem attachment_failure_reported
        (cfg : Config) (env : Env) (data : bytes)
        (filename sender subject timestamp : string) (w : World) :
  let path := path_join (attachments_dir cfg)
                        (sanitize_filename filename sender timestamp) in
  let result := process_attachment cfg env data filename sender subject
                                   timestamp w in
  (fst result = None <->
   fs_result env (fs_ops w) <> IoOk
   \/ (docker_mode cfg = false /\ fs_result env (S (fs_ops w)) <> IoOk))
  /\ (fst result = None ->
      json_log (snd result) = json_log w
      /\ exists evs, trace (snd result) = trace w ++ evs
                     /\ summaries evs = [])
  /\ (fst result = None -> fs_result env (fs_ops w) = IoOk ->
      files (snd result) = <[path := data]> (files w)).
Proof.
  cbv zeta. unfold process_attachment, write_file, read_clock, append_record.
  destruct (fs_result env (fs_ops w)) eqn:Hw;
    cbn [fs_ops count_fs_op emit store_bytes set_files].
  2,3: split; [split; [intros _; left; discriminate|reflexivity]|];
       split; [intros _; split; [reflexivity|];
               eexists; split; reflexivity|discriminate].
  destruct (docker_mode cfg) eqn:Hd.
  - split; [split; [discriminate|intros [H|[H _]]; [now elim H|discriminate]]|].
    split; discriminate.
  - destruct (fs_result env (S (fs_ops w))) eqn:Ha; cbn [fst snd].
    + split; [split; [discriminate|intros [H|[_ H]]; now elim H]|].
      split; discriminate.
    + split; [split; [intros _; right; split; [reflexivity|discriminate]
                     |reflexivity]|].
      split; [intros _; split; [reflexivity|]|reflexivity].
      eexists. simpl. rewrite <- app_assoc. split; reflexivity.
    + split; [split; [intros _; right; split; [reflexivity|discriminate]
                     |reflexivity]|].
      split; [intros _; split; [reflexivity|]|reflexivity].
      eexists. simpl. rewrite <- app_assoc. split; reflexivity.
Qed.




Lemma parts_skip (cfg : Config) (env : Env) sender subject timestamp parts :
  Forall (fun part => qualifies part = false) parts ->
  forall has w,
    snd (fold_left (process_part cfg env sender subject timestamp)
                   parts (has, w)) = w.
Proof.
  induction 1 as [|part parts Hq _ IH]; intros has w; [reflexivity|].
  cbn [fold_left].
  pose proof (process_part_skip cfg env sender subject timestamp has w part Hq)
    as Hs.
  destruct (process_part cfg env sender subject timestamp (has, w) part)
    as [has' w']. cbn [snd] in Hs. subst w'. apply IH.
Qed.

Lemma process_email_idle (cfg : Config) (env : Env) (srv : Server)
      (email_id : string) (w : World) :
  match srv_fetch srv email_id with
  | Some message => Forall (fun part => qualifies part = false) (walk message)
  | None => True
  end ->
  let w' := process_email cfg env srv email_id w in
  files w' = files w /\ json_log w' = json_log w /\ fs_ops w' = fs_ops w.
Proof.
  cbv zeta. unfold process_email.
  destruct (srv_fetch srv email_id) as [message|]; [|auto].
  intros Hq. unfold read_clock. cbn [ticks emit].
  match goal with
  | |- context [fold_left ?f ?ps (?h, ?w0)] =>
      pose proof (parts_skip cfg env
                    (decode_header_value env (msg_from message))
                    (decode_header_value env (msg_subject message))
                    (stamp (now env (ticks w))) ps Hq h w0) as Hs;
      destruct (fold_left f ps (h, w0)) as [has w']
  end.
  cbn [snd] in Hs. subst w'. destruct has; auto.
Qed.

(** X11.  A message that cannot be fetched, or none of whose parts is
    an attachment with a file name and a payload, leaves the files
    and the metadata log as they are and costs no file operation; in
    a sweep it is marked seen all the same. *)
Theorem message_without_attachment_only_marked
        (cfg : Config) (env : Env) (srv : Server)
        (email_id : string) (rest : list string) (w : World) :
  match srv_fetch srv email_id with
  | Some message => Forall (fun part => qualifies part = false) (walk message)
  | None => True
  end ->
  let w' := process_email cfg env srv email_id w in
  files w' = files w /\ json_log w' = json_log w /\ fs_ops w' = fs_ops w
  /\ exists evs tail,
      trace (sweep cfg env srv (email_id :: rest) w)
      = trace w ++ EvFetch email_id :: evs ++ EvStore email_id :: tail
      /\ attempted_writes evs = [] /\ stores evs = [].
Proof.
  intros Hq. cbv zeta.
  destruct (process_email_idle cfg env srv email_id w Hq) as (Hf & Hj & Ho).
  repeat (split; [assumption|]).
  destruct (sweep_head cfg env srv email_id rest w) as (evs & tail & Ht & Hs & Hw).
  exists evs, tail. repeat split; auto.
  rewrite Hw. unfold message_writes.
  destruct (srv_fetch srv email_id) as [message|]; [|reflexivity].
  induction Hq as [|part parts Hp _ IH]; [reflexivity|].
  cbn [flat_map]. rewrite IH. unfold expected_writes. now rewrite Hp.
Qed.

(** A message with a body and an attachment without a file name. *)
Lemma message_without_attachment_only_marked_witness :
  let srv := mailbox (message_with
                        [{| content_disposition := None;
                            part_filename := None;
                            payload := Some draft_bytes |};
                         nameless_part]) in
  let w' := process_email local_cfg calm_env srv "1" empty_world in
  files w' = files empty_world /\ json_log w' = [] /\ fs_ops w' = 0%nat
  /\ exists evs tail,
      trace (sweep local_cfg calm_env srv ["1"] empty_world)
      = [] ++ EvFetch "1" :: evs ++ EvStore "1" :: tail
      /\ attempted_writes evs = [] /\ stores evs = [].
Proof.
  apply (message_without_attachment_only_marked local_cfg calm_env
           (mailbox (message_with
                       [{| content_disposition := None;
                           part_filename := None;
                           payload := Some draft_bytes |};
                        nameless_part]))
           "1" [] empty_world).
  cbn [srv_fetch mailbox walk message_with].
  constructor; [reflexivity|]. constructor; [reflexivity|]. constructor.
Defined.

Lemma written_app a b fs : written (a ++ b) fs = written b (written a fs).
Proof. apply fold_left_app. Qed.

Section Healthy.
Variable cfg : Config.
Variable env : Env.
Hypothesis no_analysis : ENABLE_SUMMARIZATION cfg = false.
Hypothesis all_ok : forall n, fs_result env n = IoOk.

Lemma process_attachment_files data filename sender subject timestamp w :
  files (snd (process_attachment cfg env data filename sender subject
                                 timestamp w))
  = <[path_join (attachments_dir cfg)
                (sanitize_filename filename sender timestamp) := data]>
      (files w).
Proof.
  unfold process_attachment, write_file, read_clock, append_record.
  rewrite all_ok, no_analysis, andb_false_r.
  destruct (docker_mode cfg); [reflexivity|].
  cbn [fs_ops count_fs_op emit store_bytes set_files]. now rewrite all_ok.
Qed.

Lemma process_part_files sender subject timestamp has w part :
  files (snd (process_part cfg env sender subject timestamp (has, w) part))
  = written (expected_writes cfg env sender timestamp part) (files w).
Proof.
  unfold process_part, expected_writes, qualifies.
  destruct (is_attachment part); cbn [andb]; [|reflexivity].
  destruct (part_filename part) as [[|c f]|]; try reflexivity.
  destruct (payload part) as [[|b bs]|]; try reflexivity.
  cbn [snd andb]. apply process_attachment_files.
Qed.

Lemma parts_files sender subject timestamp parts : forall has w,
  files (snd (fold_left (process_part cfg env sender subject timestamp)
                        parts (has, w)))
  = written (flat_map (expected_writes cfg env sender timestamp) parts)
            (files w).
Proof.
  induction parts as [|part parts IH]; intros has w; [reflexivity|].
  cbn [fold_left flat_map]. rewrite written_app.
  pose proof (process_part_files sender subject timestamp has w part) as H.
  destruct (process_part cfg env sender subject timestamp (has, w) part)
    as [has' w']. cbn [snd] in H. now rewrite IH, H.
Qed.
End Healthy.

(** X21.  With every file operation succeeding and the analysis
    switched off, the directory after [_process_email] is the
    directory before with the payload of each qualifying part of the
    message written under its stored path, in the order of the parts:
    nothing else is created or changed, and of two attachments that
    get the same stored name the later one replaces the earlier. *)
Theorem healthy_message_files
        (cfg : Config) (env : Env) (srv : Server)
        (email_id : string) (w : World) :
  ENABLE_SUMMARIZATION cfg = false -> (forall n, fs_result env n = IoOk) ->
  files (process_email cfg env srv email_id w)
  = written (message_writes cfg env srv email_id w) (files w).
Proof.
  intros Hoff Hok. unfold process_email, message_writes.
  destruct (srv_fetch srv email_id) as [message|]; [|reflexivity].
  unfold read_clock. cbn [ticks emit].
  match goal with
  | |- context [fold_left ?f ?ps (?h, ?w0)] =>
      pose proof (parts_files cfg env Hoff Hok
                    (decode_header_value env (msg_from message))
                    (decode_header_value env (msg_subject message))
                    (stamp (now env (ticks w))) ps h w0) as H;
      destruct (fold_left f ps (h, w0)) as [has w']
  end.
  cbn [snd files] in H. destruct has; exact H.
Qed.

Lemma healthy_message_files_witness :
  files (process_email local_cfg calm_env
           (mailbox (message_with [report_part; nameless_part; draft_part]))
           "1" empty_world)
  = <[report_path := draft_bytes]> (<[report_path := report_bytes]> ∅).
Proof.
  apply (healthy_message_files local_cfg calm_env
           (mailbox (message_with [report_part; nameless_part; draft_part]))
           "1" empty_world eq_refl (fun _ => eq_refl)).
Defined.

End PipelineMore.
(** ** Further properties of the monitor *)
Module MonitorMore.
Import PyStr Pipeline Samples Monitor SweepForms MonitorForms.
Import PipelineFacts MonitorSpec PipelineMore.

(** *** Sweeps give only events of sweeps *)

Lemma control_emit e w :
  control (emit e w) = control w ++ (if sweeping e then [] else [e]).
Proof.
  unfold control. cbn [trace emit]. rewrite List.filter_app. cbn [List.filter].
  now destruct (sweeping e).
Qed.

Lemma control_same w w' : trace w' = trace w -> control w' = control w.
Proof. unfold control. now intros ->. Qed.

Section WithEnv.
Variable cfg : Config.
Variable env : Env.

Lemma control_process_attachment data filename sender subject timestamp w :
  control (snd (process_attachment cfg env data filename sender subject
                                   timestamp w)) = control w.
Proof.
  unfold process_attachment, write_file, read_clock, append_record,
    process_pdf.
  repeat match goal with
         | |- context [fs_result env ?n] => destruct (fs_result env n)
         | |- context [docker_mode cfg] => destruct (docker_mode cfg)
         | |- context [pdf_summary env ?a ?b ?c] =>
             destruct (pdf_summary env a b c)
         | |- context [if ?b then _ else _] => destruct b
         end;
    cbn [fst snd]; unfold control; simpl;
    rewrite ?List.filter_app; simpl; rewrite ?app_nil_r; reflexivity.
Qed.

Lemma control_process_part sender subject timestamp has w part :
  control (snd (process_part cfg env sender subject timestamp (has, w) part))
  = control w.
Proof.
  unfold process_part.
  destruct (is_attachment part); [|reflexivity].
  destruct (part_filename part) as [[|c f]|]; try reflexivity.
  destruct (payload part) as [[|b bs]|]; try reflexivity.
  cbn [snd]. apply control_process_attachment.
Qed.

Lemma control_parts sender subject timestamp parts : forall has w,
  control (snd (fold_left (process_part cfg env sender subject timestamp)
                          parts (has, w))) = control w.
Proof.
  induction parts as [|part parts IH]; intros has w; [reflexivity|].
  cbn [fold_left].
  pose proof (control_process_part sender subject timestamp has w part) as H.
  destruct (process_part cfg env sender subject timestamp (has, w) part)
    as [has' w']. cbn [snd] in H. now rewrite IH.
Qed.

Section Sweep.
Variable srv : Server.

Lemma control_process_email email_id w :
  control (process_email cfg env srv email_id w) = control w.
Proof.
  unfold process_email.
  destruct (srv_fetch srv email_id) as [message|];
    [|rewrite control_emit; apply app_nil_r].
  unfold read_clock. cbn [ticks emit].
  match goal with
  | |- context [fold_left ?f ?ps (?h, ?w0)] =>
      pose proof (control_parts
                    (decode_header_value env (msg_from message))
                    (decode_header_value env (msg_subject message))
                    (stamp (now env (ticks w))) ps h w0) as H;
      destruct (fold_left f ps (h, w0)) as [has w']
  end.
  cbn [snd] in H.
  assert (H0 : control w' = control w).
  { rewrite H. unfold control. simpl. rewrite List.filter_app. simpl.
    apply app_nil_r. }
  destruct has; [exact H0|].
  rewrite control_emit, H0. apply app_nil_r.
Qed.

Lemma control_sweep ids : forall w,
  control (sweep cfg env srv ids w) = control w.
Proof.
  induction ids as [|email_id rest IH]; intros w; [reflexivity|].
  cbn [sweep].
  assert (H : control (emit (EvStore email_id)
                            (process_email cfg env srv email_id w))
              = control w).
  { rewrite control_emit, control_process_email. apply app_nil_r. }
  destruct (srv_store srv email_id); [now rewrite IH|exact H].
Qed.

Lemma control_process_new_messages mail w :
  control (process_new_messages cfg env srv mail w) = control w.
Proof.
  unfold process_new_messages.
  destruct mail; [|reflexivity]. cbn [negb].
  destruct (srv_select srv); cbn [negb];
    [|rewrite control_emit; apply app_nil_r].
  destruct (srv_search srv) as [ids|];
    rewrite ?control_sweep, !control_emit; simpl; now rewrite !app_nil_r.
Qed.

Lemma control_start_sweep w :
  control (start_sweep cfg env srv w) = control w.
Proof.
  unfold start_sweep.
  destruct (srv_search srv) as [ids|];
    rewrite ?control_sweep, !control_emit; simpl; now rewrite !app_nil_r.
Qed.
End Sweep.
End WithEnv.

(** *** Pauses after failed connections *)

Lemma pending_snoc evs e : pending (evs ++ [e]) = failed_connect e.
Proof. unfold pending. now rewrite last_snoc. Qed.

Lemma pending_cons e e' evs : pending (e :: e' :: evs) = pending (e' :: evs).
Proof. reflexivity. Qed.

Lemma paced_snoc evs e :
  paced (evs ++ [e]) = paced evs && (negb (pending evs) || calm e).
Proof.
  induction evs as [|e0 [|e1 rest] IH].
  - simpl. now destruct (failed_connect e), (calm e).
  - simpl. unfold pending. simpl.
    now destruct (failed_connect e0), (failed_connect e), (calm e).
  - change ((e0 :: e1 :: rest) ++ [e]) with (e0 :: (e1 :: rest) ++ [e]).
    cbn [paced]. rewrite IH, pending_cons. cbn [app paced].
    now rewrite !andb_assoc.
Qed.

Lemma paced_emit e w :
  paced (trace (emit e w))
  = paced (trace w) && (negb (pending (trace w)) || calm e).
Proof. apply paced_snoc. Qed.

Lemma pending_emit e w : pending (trace (emit e w)) = failed_connect e.
Proof. apply pending_snoc. Qed.

Lemma quiet_extension a evs :
  List.filter (fun e => negb (sweeping e)) evs = [] ->
  paced a = true -> pending a = false ->
  paced (a ++ evs) = true /\ pending (a ++ evs) = false.
Proof.
  induction evs as [|e evs IH] using rev_ind; intros Hq Hp Hn.
  - now rewrite app_nil_r.
  - rewrite List.filter_app in Hq. apply app_eq_nil in Hq as [Hq He].
    destruct (IH Hq Hp Hn) as [Hp' Hn'].
    rewrite app_assoc, paced_snoc, pending_snoc, Hp', Hn'.
    cbn [List.filter] in He. destruct e; try discriminate He; auto.
Qed.

(** A world reached by sweeping keeps the pace. *)
Lemma paced_after_sweep w w' evs :
  trace w' = trace w ++ evs -> control w' = control w ->
  paced (trace w) = true -> pending (trace w) = false ->
  paced (trace w') = true /\ pending (trace w') = false.
Proof.
  unfold control. intros -> Hc. rewrite List.filter_app in Hc.
  apply quiet_extension.
  apply (app_inv_head (List.filter (fun e => negb (sweeping e)) (trace w))).
  now rewrite app_nil_r.
Qed.

(** What the monitor keeps true from one program point to the next:
    the trace is paced, and a failed connection attempt at its end
    means that the monitor is about to sleep, without connection. *)
Definition keeps_pace (st : State) : Prop :=
  paced (trace (world st)) = true
  /\ (pending (trace (world st)) = true ->
      (loc st = AtSleep30 \/ loc st = AtSleep10) /\ mail st = false).

(** Split a step along the tests of the code. *)
Ltac split_step :=
  repeat match goal with
         | |- context [if ?b then _ else _] => destruct b eqn:?
         | |- context [match ?x with EmptyString => _ | String _ _ => _ end] =>
             destruct x eqn:?
         | |- context [match ?x with Some _ => _ | None => _ end] =>
             destruct x eqn:?
         end.

Section WithEnv.
Variable cfg : Config.
Variable env : Env.

Lemma sweeps_keep_pace srv m w :
  paced (trace w) = true -> pending (trace w) = false ->
  (paced (trace (process_new_messages cfg env srv m w)) = true
   /\ pending (trace (process_new_messages cfg env srv m w)) = false)
  /\ (paced (trace (start_sweep cfg env srv w)) = true
      /\ pending (trace (start_sweep cfg env srv w)) = false).
Proof.
  intros Hp Hn. split.
  - destruct (process_new_messages_footprint cfg env srv m w)
      as (evs & (Ht & _) & _).
    eapply paced_after_sweep; eauto using control_process_new_messages.
  - destruct (start_sweep_footprint cfg env srv w) as (evs & (Ht & _) & _).
    eapply paced_after_sweep; eauto using control_start_sweep.
Qed.

Lemma step_keeps_pace st i :
  keeps_pace st ->
  match step cfg env st i with
  | Next st' => keeps_pace st'
  | Halt w => paced (trace w) = true
  | Stuck => True
  end.
Proof.
  destruct st as [l r m w]. unfold keeps_pace. cbn [loc mail world].
  intros [Hp Hq].
  destruct (pending (trace w)) eqn:Hn.
  - destruct (Hq eq_refl) as [[-> | ->] ->]; clear Hq;
      destruct i; simpl; try exact I;
      unfold loop_top; cbn [running mail world loc];
      split_step; unfold goto; cbn [running mail world loc];
      simpl in *; try discriminate;
      rewrite ?paced_snoc, ?pending_snoc, ?Hp, ?Hn; simpl;
      try reflexivity; try (split; [reflexivity|discriminate]).
  - clear Hq. destruct i.
    8: { destruct (sweeps_keep_pace srv m w Hp Hn) as [[Hs1 Hs2] [Hs3 Hs4]].
         destruct (sweeps_keep_pace srv true w Hp Hn) as [[Hs5 Hs6] _].
         change (process_new_messages cfg env srv true w)
           with (poll_once cfg env srv w) in Hs5, Hs6.
         destruct l; try exact I;
           unfold step, loop_top, goto, with_world;
           cbn [loc running mail world];
           split_step; cbn [loc running mail world];
           rewrite ?paced_emit, ?pending_emit, ?Hs1, ?Hs2, ?Hs3, ?Hs4,
             ?Hs5, ?Hs6;
           try reflexivity; split; try assumption; congruence. }
    all: destruct l; simpl; try exact I;
      unfold loop_top, wait_loop, goto, with_world, with_mail;
      cbn [running mail world loc];
      split_step; unfold goto; cbn [running mail world loc];
      simpl in *; try discriminate;
      rewrite ?paced_snoc, ?pending_snoc, ?Hp, ?Hn; simpl;
      try exact I; try reflexivity;
      try (split; [reflexivity|discriminate]);
      try (split; [reflexivity|intros _; split; [auto|reflexivity]]);
      try (split; [assumption|congruence]); try assumption.
Qed.

Lemma run_keeps_pace inputs : forall st,
  keeps_pace st ->
  forall w', outcome_world (run cfg env st inputs) = Some w' ->
             paced (trace w') = true.
Proof.
  induction inputs as [|i inputs IH]; intros st Hst w'; cbn [run].
  - intros [= <-]. apply Hst.
  - pose proof (step_keeps_pace st i Hst) as Hs.
    destruct (step cfg env st i) as [st'|w1|]; [now apply IH| |discriminate].
    now intros [= <-].
Qed.

(** Where the monitor uses its connection, it has one. *)
Lemma step_connected st i :
  (on_connection (loc st) = true -> mail st = true) ->
  match step cfg env st i with
  | Next st' => on_connection (loc st') = true -> mail st' = true
  | _ => True
  end.
Proof.
  destruct st as [l r m w]. cbn [loc mail].
  destruct (on_connection l) eqn:Hl; intros Hm;
    [rewrite (Hm eq_refl); clear Hm|clear Hm];
    destruct i, l; try discriminate Hl; simpl; try exact I;
    unfold loop_top, wait_loop, goto, with_world, with_mail;
    cbn [running mail world loc];
    split_step; unfold goto; cbn [running mail world loc on_connection];
    simpl in *; try exact I; try discriminate; try congruence; auto.
Qed.

Lemma run_connected inputs : forall st st',
  (on_connection (loc st) = true -> mail st = true) ->
  run cfg env st inputs = Next st' ->
  on_connection (loc st') = true -> mail st' = true.
Proof.
  induction inputs as [|i inputs IH]; intros st st' Hst; cbn [run].
  - now intros [= <-].
  - pose proof (step_connected st i Hst) as Hs.
    destruct (step cfg env st i) as [st1|w1|]; [|discriminate..].
    now apply IH.
Qed.

(** While the acknowledgement of [DONE] has not come, the monitor
    keeps reading. *)
Lemma new_mail_ack_loop tag noise st :
  loc st = AtAckNew tag ->
  forallb (fun r => negb (contains tag r)) noise = true ->
  run cfg env st (map (fun r => InLine (Some r)) noise) = Next st
  /\ visited cfg env st (map (fun r => InLine (Some r)) noise)
     = repeat (AtAckNew tag) (length noise).
Proof.
  destruct st as [l r m w]. cbn [loc]. intros ->.
  induction noise as [|x noise IH]; simpl; [auto|].
  intros [Hx Hn]%andb_true_iff. apply negb_true_iff in Hx.
  rewrite Hx. unfold goto. cbn [loc running mail world].
  destruct (IH Hn) as [-> ->]. auto.
Qed.
End WithEnv.

(** X12.  A line with [EXISTS] read during the wait makes the monitor
    send [DONE], read lines until one carries the tag of the idle
    session, and then sweep the mailbox once with
    [_process_new_messages], on the connection it has: the unseen
    messages the server lists are fetched and marked, and the monitor
    goes on to select the inbox for a new idle session.  It passes
    from IDLE_WAITING through IDLE_TERMINATING(new data) and CATCHUP
    to IDLE_HANDSHAKE. *)
Theorem new_mail_starts_one_sweep
        (cfg : Config) (env : Env) (st : State) (tag : string) (t0 : Q)
        (line : string) (noise : list string) (resp : string) (srv : Server) :
  loc st = AtWait tag t0 -> running st = true -> mail st = true ->
  contains "EXISTS" line = true ->
  forallb (fun r => negb (contains tag r)) noise = true ->
  contains tag resp = true ->
  let inputs := [InLine (Some line); InDone true]
                  ++ map (fun r => InLine (Some r)) noise
                  ++ [InLine (Some resp); InServer srv] in
  let w' := process_new_messages cfg env srv true
              (emit (EvSend done_command) (world st)) in
  run cfg env st inputs
  = Next {| loc := AtSelect; running := true; mail := true; world := w' |}
  /\ (exists evs,
         trace w' = trace (world st) ++ EvSend done_command :: evs
         /\ fetches evs = swept srv /\ stores evs = swept srv)
  /\ map monitor_state (visited cfg env st inputs)
     = [IDLE_TERMINATING NewData; IDLE_TERMINATING NewData]
         ++ repeat (IDLE_TERMINATING NewData) (length noise)
         ++ [CATCHUP; IDLE_HANDSHAKE].
Proof.
  destruct st as [l r m w]. cbn [loc running mail world].
  intros -> -> -> Hline Hnoise Hresp.
  set (st0 := {| loc := AtWait tag t0; running := true; mail := true;
                 world := w |}).
  set (st1 := {| loc := AtAckNew tag; running := true; mail := true;
                 world := emit (EvSend done_command) w |}).
  assert (H2 : run cfg env st0 [InLine (Some line); InDone true] = Next st1
               /\ visited cfg env st0 [InLine (Some line); InDone true]
                  = [AtDoneNew tag; AtAckNew tag]).
  { assert (Hs1 : step cfg env st0 (InLine (Some line))
                  = Next {| loc := AtDoneNew tag; running := true;
                            mail := true; world := w |}).
    { unfold st0, step. cbn [loc].
      destruct line as [|c line']; [discriminate Hline|]. now rewrite Hline. }
    cbn [run visited]. rewrite Hs1. simpl. auto. }
  destruct H2 as [Hrun2 Hvis2].
  destruct (new_mail_ack_loop cfg env tag noise st1 eq_refl Hnoise)
    as [Hrun3 Hvis3].
  assert (Hlast : run cfg env st1 [InLine (Some resp); InServer srv]
                  = Next {| loc := AtSelect; running := true; mail := true;
                            world := process_new_messages cfg env srv true
                                       (emit (EvSend done_command) w) |}
                    /\ visited cfg env st1 [InLine (Some resp); InServer srv]
                       = [AtProcess; AtSelect]).
  { cbn [run visited]. unfold st1, step. cbn [loc]. rewrite Hresp.
    unfold goto, loop_top, with_world. cbn [loc running mail world]. auto. }
  destruct Hlast as [Hrun4 Hvis4].
  cbv zeta. split; [|split].
  - now rewrite run_app, Hrun2, run_app, Hrun3.
  - destruct (process_new_messages_footprint cfg env srv true
                (emit (EvSend done_command) w))
      as (evs & (Ht & _) & Hf & Hs & _).
    exists evs. rewrite Ht. cbn [trace emit]. rewrite <- app_assoc. auto.
  - rewrite (visited_app _ _ _ _ _ _ Hrun2), Hvis2.
    rewrite (visited_app _ _ _ _ _ _ Hrun3), Hvis3, Hvis4.
    rewrite !map_app, map_repeat. reflexivity.
Qed.

Lemma new_mail_starts_one_sweep_witness :
  exists evs,
    trace (process_new_messages local_cfg calm_env
             (mailbox (message_with [report_part])) true
             (emit (EvSend done_command) empty_world))
    = [] ++ EvSend done_command :: evs
    /\ fetches evs = ["1"] /\ stores evs = ["1"].
Proof.
  destruct (new_mail_starts_one_sweep local_cfg calm_env waiting "A001" 0
              "* 4 EXISTS" ["* 1 RECENT"] "A001 OK IDLE terminated"
              (mailbox (message_with [report_part]))
              eq_refl eq_refl eq_refl eq_refl eq_refl eq_refl)
    as (_ & H & _).
  exact H.
Defined.

(** X13.  After a failure of the idle handshake the monitor logs out
    of the connection it has, tries one new connection, sweeps the
    mailbox once with [_poll_once] when that succeeds, and sleeps
    10 seconds; it then selects the inbox for a new idle session, or
    goes back to connecting when it has no connection. *)
Theorem fallback_polls_once
        (cfg : Config) (env : Env) (st : State)
        (logout_ok ok : bool) (srv : Server) :
  loc st = AtFallbackLogout -> running st = true ->
  exists w' evs,
    run cfg env st ([InDone logout_ok; InConnect ok]
                      ++ (if ok then [InServer srv] else []) ++ [InWake])
    = Next {| loc := if ok then AtSelect else AtConnect;
              running := true; mail := ok; world := w' |}
    /\ trace w'
       = trace (world st) ++ (if mail st then [EvLogout] else [])
           ++ [EvConnect ok] ++ evs ++ [EvSleep 10]
    /\ fetches evs = (if ok then swept srv else [])
    /\ stores evs = fetches evs.
Proof.
  destruct st as [l r m w]. cbn [loc running mail world]. intros -> ->.
  destruct ok.
  - set (w1 := emit (EvConnect true) (if m then emit EvLogout w else w)).
    destruct (process_new_messages_footprint cfg env srv true w1)
      as (evs & (Ht & _) & Hf & Hs & _).
    exists (emit (EvSleep 10) (poll_once cfg env srv w1)), evs.
    split; [destruct m; reflexivity|]. rewrite Hf, Hs.
    split; [|auto].
    change (poll_once cfg env srv w1)
      with (process_new_messages cfg env srv true w1).
    cbn [trace emit]. rewrite Ht. subst w1.
    destruct m; cbn [trace emit app]; rewrite <- ?app_assoc; reflexivity.
  - exists (emit (EvSleep 10)
                 (emit (EvConnect false) (if m then emit EvLogout w else w))),
           [].
    split; [destruct m; reflexivity|]. split; [|auto].
    destruct m; cbn [trace emit app]; rewrite <- ?app_assoc; reflexivity.
Qed.

Lemma fallback_polls_once_witness :
  exists w' evs,
    run local_cfg calm_env
        {| loc := AtFallbackLogout; running := true; mail := true;
           world := empty_world |}
        [InDone false; InConnect true;
         InServer (mailbox (message_with [report_part])); InWake]
    = Next {| loc := AtSelect; running := true; mail := true; world := w' |}
    /\ trace w' = [] ++ [EvLogout] ++ [EvConnect true] ++ evs ++ [EvSleep 10]
    /\ fetches evs = ["1"] /\ stores evs = fetches evs.
Proof.
  exact (fallback_polls_once local_cfg calm_env
           {| loc := AtFallbackLogout; running := true; mail := true;
              world := empty_world |}
           false true (mailbox (message_with [report_part]))
           eq_refl eq_refl).
Defined.

(** X14.  A shutdown signal that arrives while the monitor waits
    for one call to return (a connection attempt, a sleep, a command,
    a line, the clock) is not lost, but not every one ends the process
    at once.  At all of these points except two, the handler runs and
    the process exits with status 0.  During the [DONE] of line 661
    the exit is swallowed and [start] returns.  During the [logout] of
    line 673 the exit is swallowed too: the monitor still tries a new
    connection, sweeps the mailbox once when it gets one, sleeps 10
    seconds, and only then returns.  A signal that arrives inside a
    sweep is left aside: there are more clauses there that swallow
    the exit. *)
Theorem signal_ends_the_monitor
        (cfg : Config) (env : Env) (st : State) (signum : Z) :
  let st' := signal_handler st in
  (sweep_point (loc st) = false ->
   loc st <> AtDoneErr -> loc st <> AtFallbackLogout ->
   step cfg env st (InSignal signum) = Halt (emit (EvExit 0) (world st')))
  /\ (loc st = AtDoneErr ->
      step cfg env st (InSignal signum) = Halt (emit EvReturn (world st')))
  /\ (loc st = AtFallbackLogout ->
      forall (ok : bool) (srv : Server),
        run cfg env st ([InSignal signum; InConnect ok]
                          ++ (if ok then [InServer srv] else []) ++ [InWake])
        = Halt (emit EvReturn
                  (emit (EvSleep 10)
                     ((if ok then poll_once cfg env srv else fun w => w)
                        (emit (EvConnect ok) (world st')))))).
Proof.
  destruct st as [l r m w]. cbn [loc]. split; [|split].
  - intros _ H1 H2. destruct l; try reflexivity; contradiction.
  - now intros ->.
  - intros -> [|] srv; reflexivity.
Qed.

(** X15.  From the entry of [start] on, whenever the monitor is at a
    point where it sends a command, reads a line or sweeps the
    mailbox, it has a connection: in the monitor,
    [_process_new_messages] never leaves by its test for a missing
    connection. *)
Theorem commands_have_a_connection
        (cfg : Config) (env : Env) (w : World) (inputs : list Input)
        (st : State) :
  run cfg env (initial w) inputs = Next st ->
  on_connection (loc st) = true ->
  mail st = true.
Proof.
  apply run_connected. discriminate.
Qed.

Lemma commands_have_a_connection_witness :
  exists st,
    run local_cfg calm_env (initial empty_world)
        [InConnect true;
         InServer {| srv_select := true; srv_search := None;
                     srv_fetch := fun _ => None;
                     srv_store := fun _ => true |};
         InDone true; InTag "A001"; InDone true;
         InLine (Some "+ idling"); InTime 0;
         InLine (Some "* 4 EXISTS"); InDone true;
         InLine (Some "A001 OK IDLE terminated")] = Next st
    /\ loc st = AtProcess /\ mail st = true.
Proof.
  eexists. split; [reflexivity|]. split; [reflexivity|].
  apply (commands_have_a_connection local_cfg calm_env empty_world
           [InConnect true;
            InServer {| srv_select := true; srv_search := None;
                        srv_fetch := fun _ => None;
                        srv_store := fun _ => true |};
            InDone true; InTag "A001"; InDone true;
            InLine (Some "+ idling"); InTime 0;
            InLine (Some "* 4 EXISTS"); InDone true;
            InLine (Some "A001 OK IDLE terminated")]);
    reflexivity.
Defined.

(** X16.  The watcher never hammers the server with connection
    attempts: in every run of [start], what follows a failed
    connection attempt at once is a sleep of at least 10 seconds or
    the end of the process. *)
Theorem failed_connection_then_pause
        (cfg : Config) (env : Env) (w : World) (inputs : list Input)
        (w' : World) :
  paced (trace w) = true -> pending (trace w) = false ->
  outcome_world (run cfg env (initial w) inputs) = Some w' ->
  paced (trace w') = true.
Proof.
  intros Hp Hn. apply run_keeps_pace. split; [exact Hp|].
  cbn [initial world]. rewrite Hn. discriminate.
Qed.

Lemma failed_connection_then_pause_witness :
  exists w',
    outcome_world
      (run local_cfg calm_env (initial empty_world)
           [InConnect true;
            InServer {| srv_select := true; srv_search := None;
                        srv_fetch := fun _ => None;
                        srv_store := fun _ => true |};
            InDone false; InDone true; InConnect false; InWake;
            InConnect false; InWake; InConnect false]) = Some w'
    /\ trace w'
       = [EvConnect true; EvSearch; EvSelect; EvLogout; EvConnect false;
          EvSleep 10; EvConnect false; EvSleep 30; EvConnect false]
    /\ paced (trace w') = true.
Proof.
  eexists. split; [reflexivity|]. split; [reflexivity|].
  apply (failed_connection_then_pause local_cfg calm_env empty_world
           [InConnect true;
            InServer {| srv_select := true; srv_search := None;
                        srv_fetch := fun _ => None;
                        srv_store := fun _ => true |};
            InDone false; InDone true; InConnect false; InWake;
            InConnect false; InWake; InConnect false]);
    reflexivity.
Defined.

Lemma handshake_ack_loop (cfg : Config) (env : Env) tag noise st :
  loc st = AtAck tag ->
  forallb (passed_over tag) noise = true ->
  run cfg env st (map (fun r => InLine (Some r)) noise) = Next st.
Proof.
  destruct st as [l r m w]. cbn [loc]. intros ->.
  induction noise as [|x noise IH]; [reflexivity|].
  cbn [forallb map run]. intros [Hx Hn]%andb_true_iff.
  unfold passed_over, acknowledges in Hx.
  apply andb_true_iff in Hx as [Ha Hr]. apply negb_true_iff in Ha, Hr.
  apply orb_false_iff in Ha as [Ha1 Ha2].
  unfold step. cbn [loc]. rewrite Ha1, Ha2, Hr.
  unfold goto. cbn [loc running mail world]. exact (IH Hn).
Qed.

(** X22.  The idle handshake, for answers of ASCII bytes.  With a
    connection, the monitor selects the inbox, sends [IDLE] under a
    new tag, and reads lines: those that neither acknowledge nor hold
    [NO] or [BAD] are passed over; the first line that acknowledges
    (it starts with [+ idling], or holds the tag and [OK]) starts the
    wait, timed from the next reading of the clock; a line that holds
    [NO] or [BAD] before that, anywhere in it, ends the attempt and
    sends the monitor to its fallback. *)
Theorem idle_handshake
        (cfg : Config) (env : Env) (st : State) (tag : string)
        (noise : list string) (line : string) (t0 : Q) :
  loc st = AtSelect -> running st = true -> mail st = true ->
  forallb ascii_line (line :: noise) = true ->
  forallb (passed_over tag) noise = true ->
  let w' := emit (EvSend (idle_command tag)) (emit EvSelect (world st)) in
  let inputs := [InDone true; InTag tag; InDone true]
                  ++ map (fun r => InLine (Some r)) noise in
  (acknowledges tag line = true ->
   run cfg env st (inputs ++ [InLine (Some line); InTime t0])
   = Next {| loc := AtWait tag t0; running := true; mail := true;
             world := w' |})
  /\ (refuses tag line = true ->
      run cfg env st (inputs ++ [InLine (Some line)])
      = Next {| loc := AtFallbackLogout; running := true; mail := true;
                world := w' |}).
Proof.
  destruct st as [l r m w]. cbn [loc running mail world].
  intros -> -> -> _ Hnoise. cbv zeta.
  set (st1 := {| loc := AtAck tag; running := true; mail := true;
                 world := emit (EvSend (idle_command tag))
                            (emit EvSelect w) |}).
  assert (H3 : run cfg env {| loc := AtSelect; running := true; mail := true;
                              world := w |}
                   [InDone true; InTag tag; InDone true] = Next st1)
    by reflexivity.
  pose proof (handshake_ack_loop cfg env tag noise st1 eq_refl Hnoise) as H4.
  split; intros Hline; rewrite !run_app, H3, H4; cbn [run];
    unfold st1, step; cbn [loc].
  - unfold acknowledges in Hline.
    destruct (String.prefix "+ idling" line); [reflexivity|].
    cbn [orb] in Hline. rewrite Hline. reflexivity.
  - unfold refuses, acknowledges in Hline.
    apply andb_true_iff in Hline as [Ha Hr]. apply negb_true_iff in Ha.
    apply orb_false_iff in Ha as [Ha1 Ha2]. rewrite Ha1, Ha2, Hr.
    reflexivity.
Qed.

Lemma idle_handshake_witness :
  run local_cfg calm_env connected
      [InDone true; InTag "A001"; InDone true;
       InLine (Some "* 12 EXISTS"); InLine (Some "+ idling"); InTime 5]
  = Next {| loc := AtWait "A001" 5; running := true; mail := true;
            world := emit (EvSend (idle_command "A001"))
                          (emit EvSelect empty_world) |}
  /\ run local_cfg calm_env connected
         [InDone true; InTag "A001"; InDone true;
          InLine (Some "* 12 EXISTS"); InLine (Some "* OK NOOP done")]
     = Next {| loc := AtFallbackLogout; running := true; mail := true;
               world := emit (EvSend (idle_command "A001"))
                             (emit EvSelect empty_world) |}.
Proof.
  split.
  - apply (idle_handshake local_cfg calm_env connected "A001"
             ["* 12 EXISTS"] "+ idling" 5
             eq_refl eq_refl eq_refl eq_refl eq_refl).
    reflexivity.
  - apply (idle_handshake local_cfg calm_env connected "A001"
             ["* 12 EXISTS"] "* OK NOOP done" 5
             eq_refl eq_refl eq_refl eq_refl eq_refl).
    reflexivity.
Defined.

End MonitorMore.
(** ** The interactive set-up *)
Module EntrypointMore.
Import PyStr Pipeline Monitor Samples Entrypoint.



Lemma ask_address_skips bad typed :
  Forall (fun line => contains "@gmail.com" (strip line) = false) bad ->
  ask_address (bad ++ typed) = ask_address typed.
Proof.
  induction 1 as [|line bad Hline _ IH]; [reflexivity|].
  cbn [app ask_address]. now rewrite Hline.
Qed.

Lemma ask_password_skips bad typed :
  Forall (fun line => strip line = EmptyString) bad ->
  ask_password (bad ++ typed) = ask_password typed.
Proof.
  induction 1 as [|line bad Hline _ IH]; [reflexivity|].
  cbn [app ask_password]. now rewrite Hline.
Qed.





(** X17.  [get_user_input] asks for the address until an answer holds
    [@gmail.com], then for the password until an answer is not blank,
    and returns both without the white space around them; the answers
    turned down leave no trace in the result.  Summarization is on
    unless the answer is [n] or [N], and the model is only asked for
    when it is on: the large model on answer [2], the small one
    otherwise. *)
Theorem setup_takes_first_valid_answers
        (bad_addresses : list string) (address : string)
        (bad_passwords : list string) (password : string)
        (answer choice : string) (rest : list string) :
  Forall (fun line => contains "@gmail.com" (strip line) = false)
         bad_addresses ->
  contains "@gmail.com" (strip address) = true ->
  Forall (fun line => strip line = EmptyString) bad_passwords ->
  strip password <> EmptyString ->
  let off := String.eqb (lower (strip answer)) "n" in
  get_user_input (bad_addresses ++ address :: bad_passwords
                    ++ password :: answer :: choice :: rest)
  = Some ({| gmail_address := strip address;
             gmail_password := strip password;
             enable_summary := negb off;
             model := if negb off && String.eqb (strip choice) "2"
                      then "facebook/bart-large-cnn" else "t5-small" |},
          if off then choice :: rest else rest).
Proof.
  intros Hbad Haddress Hblank Hpassword off. unfold get_user_input.
  rewrite (ask_address_skips _ _ Hbad). cbn [ask_address].
  rewrite Haddress, (ask_password_skips _ _ Hblank). cbn [ask_password].
  destruct (strip password) as [|c s] eqn:E; [contradiction|].
  cbn [String.length Nat.ltb Nat.leb]. fold off.
  destruct off; reflexivity.
Qed.

Lemma setup_takes_first_valid_answers_witness :
  get_user_input ["jane@example.com"; "  Jane@gmail.com "; " "; "app password";
                  "N"; "2"]
  = Some ({| gmail_address := "Jane@gmail.com";
             gmail_password := "app password";
             enable_summary := false;
             model := "t5-small" |}, ["2"]).
Proof.
  apply (setup_takes_first_valid_answers
           ["jane@example.com"] "  Jane@gmail.com " [" "] "app password"
           "N" "2" []).
  - repeat constructor.
  - reflexivity.
  - repeat constructor.
  - discriminate.
Defined.



End EntrypointMore.
(** ** The description of a document *)
Module DescribeMore.
Import PyStr Monitor Entrypoint Describe.
Import PyStrFacts.

Lemma prefix_nil_l (s : string) : String.prefix EmptyString s = true.
Proof. now destruct s. Qed.

Lemma prefix_nil_r (n : string) :
  String.prefix n EmptyString = true -> n = EmptyString.
Proof. now destruct n. Qed.

Lemma prefix_app_l (n a b : string) :
  String.prefix n a = true -> String.prefix n (a +:+ b) = true.
Proof.
  revert a. induction n as [|x n IH]; intros a; [intros _; apply prefix_nil_l|].
  destruct a as [|y a]; [discriminate|]. rewrite append_cons. cbn [String.prefix].
  destruct (ascii_dec x y); [apply IH|discriminate].
Qed.

Lemma contains_nil (s : string) : contains EmptyString s = true.
Proof. destruct s; reflexivity. Qed.

Lemma contains_cons (n : string) (c : ascii) (s : string) :
  contains n s = true -> contains n (String c s) = true.
Proof. intros H. cbn [contains]. rewrite H. apply orb_true_r. Qed.

Lemma contains_app_r (n a b : string) :
  contains n b = true -> contains n (a +:+ b) = true.
Proof.
  intros H. induction a as [|c a IH]; [exact H|].
  rewrite append_cons. now apply contains_cons.
Qed.

Lemma contains_app_l (n a b : string) :
  contains n a = true -> contains n (a +:+ b) = true.
Proof.
  induction a as [|c a IH].
  - cbn [contains]. intros ->%prefix_nil_r. apply contains_nil.
  - rewrite append_cons. cbn [contains].
    intros [H|H]%orb_true_iff; apply orb_true_iff.
    + left. now apply (prefix_app_l n (String c a) b).
    + right. now apply IH.
Qed.

(** *** Pieces of a split *)

(** Without an occurrence of the separator there is one piece. *)
Lemma split_without (sep s : string) :
  contains sep s = false -> split_on sep s = [s].
Proof.
  unfold split_on. induction s as [|c s IH]; [reflexivity|].
  cbn [contains split_aux]. intros [Hp Hc]%orb_false_iff.
  rewrite Hp, (IH Hc). reflexivity.
Qed.

(** The first piece opens the string. *)
Lemma split_head (sep s : string) : forall piece pieces,
  split_aux sep s 0 = piece :: pieces -> exists t, s = piece +:+ t.
Proof.
  induction s as [|c s IH]; intros piece pieces; cbn [split_aux].
  - intros [= <- _]. now exists EmptyString.
  - destruct (String.prefix sep (String c s)).
    + intros [= <- _]. now exists (String c s).
    + destruct (split_aux sep s 0) as [|q qs] eqn:E.
      * intros [= <- _]. now exists s.
      * intros [= <- _]. destruct (IH q qs eq_refl) as [t ->]. now exists t.
Qed.

(** What a piece holds, the string holds. *)
Lemma split_piece_within (sep n s : string) : forall skip piece,
  In piece (split_aux sep s skip) ->
  contains n piece = true -> contains n s = true.
Proof.
  induction s as [|c s IH]; intros skip piece; cbn [split_aux].
  - now intros [<-|[]].
  - destruct skip as [|k].
    + destruct (String.prefix sep (String c s)).
      * intros [<-|Hin] Hn.
        -- apply prefix_nil_r in Hn. subst n. apply contains_nil.
        -- apply contains_cons. eapply IH; eauto.
      * destruct (split_aux sep s 0) as [|q qs] eqn:E.
        -- intros [<-|[]] Hn.
           apply (contains_app_l n (String c EmptyString) s Hn).
        -- intros [<-|Hin] Hn.
           ++ destruct (split_head sep s q qs E) as [t ->].
              apply (contains_app_l n (String c q) t Hn).
           ++ apply contains_cons. apply (IH 0%nat piece); [|exact Hn].
              rewrite E. now right.
    + intros Hin Hn. apply contains_cons. eapply IH; eauto.
Qed.

(** A line picked for its label, read with the case of the text, has
    the label only if the text has it. *)
Lemma field_needs_label (label opening closing text line : string) :
  contains opening text = false ->
  first_line_with label text = Some line ->
  field_between opening closing line = None.
Proof.
  intros Hno Hline. unfold first_line_with in Hline.
  assert (Hin : In line (split_on line_feed text)).
  { destruct (List.filter _ _) as [|l ls] eqn:E; [discriminate|].
    injection Hline as <-.
    assert (H : In l (l :: ls)) by now left.
    rewrite <- E in H. now apply List.filter_In in H. }
  assert (Hnone : contains opening line = false).
  { destruct (contains opening line) eqn:E; [|reflexivity].
    now rewrite (split_piece_within _ _ _ _ _ Hin E) in Hno. }
  unfold field_between. now rewrite (split_without _ _ Hnone).
Qed.

(** X19.  For the results of an AWS exam [_create_smart_description]
    says that the candidate has passed, whatever the text says about
    pass or fail: the status it works out is never read. *)
Theorem aws_results_always_passed (text : string) :
  contains "aws certified" (lower text) = true ->
  contains "exam results" (lower text) = true ->
  exists description,
    create_smart_description text = Some description
    /\ contains "successfully passed the AWS certification exam"
                description = true.
Proof.
  intros Haws Hres. unfold create_smart_description.
  rewrite Haws, Hres. cbn [andb]. cbv zeta. eexists. split; [reflexivity|].
  apply contains_app_l. rewrite <- app_assoc_s. apply contains_app_l.
  destruct (candidate_name_of text (lower text)) as [|c name];
    rewrite !app_assoc_s.
  - do 3 apply contains_app_r. reflexivity.
  - do 5 apply contains_app_r. reflexivity.
Qed.

Lemma aws_results_always_passed_witness :
  contains "pass/fail: fail" (lower score_report) = true
  /\ exists description,
      create_smart_description score_report = Some description
      /\ contains "successfully passed the AWS certification exam"
                  description = true.
Proof.
  split; [reflexivity|].
  apply (aws_results_always_passed score_report); reflexivity.
Defined.

(** X20.  The labels are looked for without regard to case, but the
    fields are cut out with the lower-case labels.  For the results
    of an AWS exam that nowhere spell [candidate:] and [score:] in
    lower case, as when the labels are capitalized, neither the name
    nor the score is read: the description is the fixed text for the
    certification. *)
Theorem capitalized_labels_not_read (text : string) :
  contains "aws certified" (lower text) = true ->
  contains "exam results" (lower text) = true ->
  contains "candidate:" text = false ->
  contains "score:" text = false ->
  create_smart_description text
  = Some ("This document is an official " +:+ cert_type_of (lower text)
            +:+ " exam results certificate. "
            +:+ "It certifies that the candidate has successfully "
            +:+ "passed the AWS certification exam with a score of "
            +:+ "above the required threshold" +:+ ". "
            +:+ "This document serves as proof of AWS cloud computing and AI/ML competency and can be used for professional validation.").
Proof.
  intros Haws Hres Hname Hscore. unfold create_smart_description.
  rewrite Haws, Hres. cbn [andb]. cbv zeta.
  assert (Hn : candidate_name_of text (lower text) = EmptyString).
  { unfold candidate_name_of.
    destruct (contains "candidate:" (lower text)); [|reflexivity].
    destruct (first_line_with "candidate:" text) as [line|] eqn:E;
      [|reflexivity].
    now rewrite (field_needs_label _ _ "exam date:" _ _ Hname E). }
  assert (Hs : score_of text (lower text) = EmptyString).
  { unfold score_of.
    destruct (contains "candidate score:" (lower text)); [|reflexivity].
    destruct (first_line_with "candidate score:" text) as [line|] eqn:E;
      [|reflexivity].
    now rewrite (field_needs_label _ _ "pass/fail:" _ _ Hscore E). }
  rewrite Hn, Hs. f_equal. now rewrite !app_assoc_s.
Qed.

Lemma capitalized_labels_not_read_witness :
  create_smart_description score_report
  = Some "This document is an official AWS Certified Cloud Practitioner exam results certificate. It certifies that the candidate has successfully passed the AWS certification exam with a score of above the required threshold. This document serves as proof of AWS cloud computing and AI/ML competency and can be used for professional validation.".
Proof.
  apply (capitalized_labels_not_read score_report); reflexivity.
Defined.

End DescribeMore.
